(** * SqueezeIt: the size-targeting image compressor and its per-item orchestrator

    A shallow embedding of [utils/imageProcessor.ts] ([compressImage]),
    [services/geminiService.ts] ([analyzeImage]) and the state handling of
    [App.tsx] ([processOne], [handleFiles], [removeImage]).

    JavaScript numbers that carry a quality, a size in KB or a pixel
    dimension are IEEE-754 binary64 values and are modelled by Rocq's
    primitive floats, so that [0.92 - 0.08] is the very double the browser
    computes.  Byte counts are integers and are modelled in [Z]. *)

From Stdlib Require Import ZArith List Bool Floats QArith Qround Lia.
From stdpp Require Import gmap strings list.

Set Warnings "-inexact-float".
Set Default Proof Using "Type".

(* ===================================================================== *)
(** * Part I: definitions                                                 *)
(* ===================================================================== *)

(** ** Browser objects *)

(** A JS number holding the integer [z] (round to nearest even, exact for
    every |z| < 2^53). *)
Definition number_of_Z (z : Z) : float :=
  SF2Prim (binary_normalize prec emax z 0 false).

Module Blob.
Record t : Type := mk { bytes : list Byte.byte; type : string }.
Definition size (b : t) : Z := Z.of_nat (length (bytes b)).
End Blob.

Module File.
Record t : Type := mk { name : string; type : string; bytes : list Byte.byte }.
Definition size (f : t) : Z := Z.of_nat (length (bytes f)).
End File.

(** An [HTMLImageElement] once its [onload] has fired.  The DOM only ever
    reports non-negative integers here; nothing below depends on that. *)
Module Image.
Record t : Type := mk { width : float; height : float }.
End Image.

(** A canvas: the two assigned dimensions and the last [drawImage] call
    (source image, destination width, destination height). *)
Module Canvas.
Record t : Type := mk {
  width : float;
  height : float;
  drawn : option (Image.t * float * float)
}.
Definition drawImage (c : t) (img : Image.t) (dw dh : float) : t :=
  {| width := width c; height := height c; drawn := Some (img, dw, dh) |}.
End Canvas.

(** How a promise settles. *)
Inductive Settled (A : Type) : Type :=
| Resolved (value : A)
| Rejected (message : string).
Arguments Resolved {A} value.
Arguments Rejected {A} message.

(** What [ai.models.generateContent] (together with the client construction
    and the base64 read that precede it inside the same [try]) does for a
    blob: it answers, with or without a [text], or something throws. *)
Inductive ApiOutcome : Type :=
| ApiResponse (text : option string)
| ApiThrows.

(** The collaborators the code calls into.  [None] stands for the failure
    callback of the respective browser API: [reader.onerror], [img.onerror],
    a null 2d context (as [false]), a null blob handed to the [toBlob]
    callback. *)
Record Platform : Type := {
  readAsDataURL : File.t -> option string;
  loadImage : string -> option Image.t;
  getContext2d : Canvas.t -> bool;
  toBlob : Canvas.t -> float -> option Blob.t;
  generateContent : Blob.t -> ApiOutcome
}.

(** ** utils/imageProcessor.ts *)

Module imageProcessor.

Definition quality : float := 0.92%float.
Definition step : float := 0.08%float.
Definition minQuality : float := 0.1%float.

(** Default parameter values of [compressImage]. *)
Definition default_targetSizeKb : float := 800%float.
Definition default_maxWidth : float := 2560%float.

(** [blob.size / 1024]. *)
Definition currentSizeKb (blob : Blob.t) : float :=
  (number_of_Z (Blob.size blob) / 1024)%float.

(** The two stop tests of the loop: [currentSizeKb <= targetSizeKb] and
    [q <= minQuality]. *)
Definition under_target (targetSizeKb : float) (blob : Blob.t) : bool :=
  (currentSizeKb blob <=? targetSizeKb)%float.

Definition at_floor (q : float) : bool := (q <=? minQuality)%float.

(** One run of the retry loop: the qualities handed to [canvas.toBlob], in
    order, and how the promise settles ([None]: the recursion budget of the
    model ran out before the promise settled). *)
Record Run : Type := mkRun {
  attempts : list float;
  outcome : option (Settled Blob.t)
}.

Definition attempt (q : float) (r : Run) : Run :=
  {| attempts := q :: attempts r; outcome := outcome r |}.

(** [attemptCompression]: the callback of [toBlob] rejects on a null blob,
    resolves when [currentSizeKb <= targetSizeKb || q <= minQuality], and
    otherwise calls [attemptCompression (q - step)]. *)
Fixpoint attemptCompression (fuel : nat) (encode : float -> option Blob.t)
    (targetSizeKb : float) (q : float) : Run :=
  match fuel with
  | O => {| attempts := []; outcome := None |}
  | S fuel' =>
      match encode q with
      | None =>
          {| attempts := [q]; outcome := Some (Rejected "Compression failed") |}
      | Some blob =>
          if under_target targetSizeKb blob || at_floor q
          then {| attempts := [q]; outcome := Some (Resolved blob) |}
          else attempt q (attemptCompression fuel' encode targetSizeKb (q - step)%float)
      end
  end.

(** The resize step: [width], [height] after the [if (width > maxWidth)]. *)
Definition resize (img : Image.t) (maxWidth : float) : float * float :=
  let width := Image.width img in
  let height := Image.height img in
  if (maxWidth <? width)%float
  then (maxWidth, (maxWidth / width * height)%float)
  else (width, height).

(** The canvas after [canvas.width = width; canvas.height = height] and
    [ctx.drawImage(img, 0, 0, width, height)]. *)
Definition surface (img : Image.t) (maxWidth : float) : Canvas.t :=
  let '(width, height) := resize img maxWidth in
  Canvas.drawImage
    {| Canvas.width := width; Canvas.height := height; Canvas.drawn := None |}
    img width height.

Section WithPlatform.
Context (env : Platform).

(** [compressImage(file, targetSizeKb = 800, maxWidth = 2560)]; an omitted
    argument is [None]. *)
Definition compressImage_run (fuel : nat) (file : File.t)
    (targetSizeKb maxWidth : option float) : Run :=
  let targetSizeKb := default default_targetSizeKb targetSizeKb in
  let maxWidth := default default_maxWidth maxWidth in
  match readAsDataURL env file with
  | None => {| attempts := []; outcome := Some (Rejected "File read error") |}
  | Some dataUrl =>
      match loadImage env dataUrl with
      | None => {| attempts := []; outcome := Some (Rejected "Image load error") |}
      | Some img =>
          let '(width, height) := resize img maxWidth in
          let canvas :=
            {| Canvas.width := width; Canvas.height := height;
               Canvas.drawn := None |} in
          if negb (getContext2d env canvas)
          then {| attempts := [];
                  outcome := Some (Rejected "Canvas context failed") |}
          else
            let canvas := Canvas.drawImage canvas img width height in
            attemptCompression fuel (toBlob env canvas) targetSizeKb quality
      end
  end.

End WithPlatform.

(** The loop started at [quality] settles within twelve calls (lemma
    [attemptCompression_settles] below), so this budget never runs out, and a
    larger one gives the same run ([compressImage_run_budget]). *)
Definition loop_budget : nat := 12.

Definition compressImage (env : Platform) (file : File.t)
    (targetSizeKb maxWidth : option float) : option (Settled Blob.t) :=
  outcome (compressImage_run env loop_budget file targetSizeKb maxWidth).

(** The quality of the [k]-th call of [attemptCompression], counting from 0. *)
Fixpoint nth_quality (k : nat) : float :=
  match k with
  | O => quality
  | S k' => (nth_quality k' - step)%float
  end.

End imageProcessor.

(** ** services/geminiService.ts *)

Module geminiService.

(** [analyzeImage]: the whole body sits in a [try]; the [catch] logs and
    returns a fixed sentence, so the promise resolves on both paths (the
    [FileReader] pass over the in-memory blob is taken to complete).
    [response.text || "..."] replaces a missing or empty text. *)
Definition analyzeImage (env : Platform) (imageBlob : Blob.t) : string :=
  match generateContent env imageBlob with
  | ApiResponse (Some text) =>
      if decide (text = "") then "No analysis available." else text
  | ApiResponse None => "No analysis available."
  | ApiThrows => "AI analysis could not be completed."
  end.

End geminiService.

(** ** types.ts *)

Module types.

(** An object URL handed out by [URL.createObjectURL]. *)
Definition Url : Type := nat.

Inductive Status : Type := Pending | Compressing | Done | Error.

Record ImageFile : Type := mkImageFile {
  id : string;
  original : File.t;
  compressed : option Blob.t;
  originalUrl : Url;
  compressedUrl : option Url;
  status : Status;
  originalSize : Z;
  compressedSize : option Z;
  error : option string;
  aiAnalysis : option string
}.

Record CompressionSettings : Type := mkSettings {
  targetSizeKb : float;
  maxWidth : float
}.

End types.

(** ** App.tsx *)

Module App.
Import types.

(** The browser's object-URL registry, as two call logs: the URLs returned
    by [URL.createObjectURL] and the arguments of [URL.revokeObjectURL]. *)
Record UrlRegistry : Type := mkRegistry {
  created : list Url;
  revoked : list Url
}.

Definition createObjectURL (reg : UrlRegistry) : Url * UrlRegistry :=
  let url := length (created reg) in
  (url, {| created := created reg ++ [url]; revoked := revoked reg |}).

Definition revokeObjectURL (url : Url) (reg : UrlRegistry) : UrlRegistry :=
  {| created := created reg; revoked := revoked reg ++ [url] |}.

(** One call of [compressImage], with the arguments as written at the call
    site ([None]: argument omitted). *)
Record CompressCall : Type := mkCall {
  call_id : string;
  call_file : File.t;
  call_targetSizeKb : option float;
  call_maxWidth : option float
}.

(** The settings [compressImage] works with for a call: omitted arguments
    take the defaults of its signature. *)
Definition effective (c : CompressCall) : CompressionSettings :=
  {| targetSizeKb :=
       default imageProcessor.default_targetSizeKb (call_targetSizeKb c);
     maxWidth := default imageProcessor.default_maxWidth (call_maxWidth c) |}.

(** The component state together with what the event loop still owes it:
    - [images]: the [useState] list;
    - [processingQueue]: the [useRef] set;
    - [urls]: the object-URL registry;
    - [awaiting]: activations of [processOne] suspended at
      [await compressImage(...)], each with [image.id] and the way its
      promise settles;
    - [analyses]: [analyzeImage(...).then(...)] callbacks not yet run, each
      with [image.id] and the resolved text;
    - [calls]: every [compressImage] call made so far. *)
Record State : Type := mkState {
  images : list ImageFile;
  processingQueue : gset string;
  urls : UrlRegistry;
  awaiting : list (string * Settled Blob.t);
  analyses : list (string * string);
  calls : list CompressCall
}.

Definition init : State :=
  {| images := []; processingQueue := ∅;
     urls := {| created := []; revoked := [] |};
     awaiting := []; analyses := []; calls := [] |}.

(** [setImages(prev => f(prev))]. *)
Definition setImages (f : list ImageFile -> list ImageFile) (st : State) : State :=
  {| images := f (images st); processingQueue := processingQueue st;
     urls := urls st; awaiting := awaiting st; analyses := analyses st;
     calls := calls st |}.

Definition set_processingQueue (q : gset string) (st : State) : State :=
  {| images := images st; processingQueue := q;
     urls := urls st; awaiting := awaiting st; analyses := analyses st;
     calls := calls st |}.

Definition set_urls (reg : UrlRegistry) (st : State) : State :=
  {| images := images st; processingQueue := processingQueue st;
     urls := reg; awaiting := awaiting st; analyses := analyses st;
     calls := calls st |}.

Definition set_awaiting (l : list (string * Settled Blob.t)) (st : State) : State :=
  {| images := images st; processingQueue := processingQueue st;
     urls := urls st; awaiting := l; analyses := analyses st;
     calls := calls st |}.

Definition set_analyses (l : list (string * string)) (st : State) : State :=
  {| images := images st; processingQueue := processingQueue st;
     urls := urls st; awaiting := awaiting st; analyses := l;
     calls := calls st |}.

Definition log_call (c : CompressCall) (st : State) : State :=
  {| images := images st; processingQueue := processingQueue st;
     urls := urls st; awaiting := awaiting st; analyses := analyses st;
     calls := calls st ++ [c] |}.

(** [{ ...img, status: 'compressing' }] *)
Definition mark_compressing (img : ImageFile) : ImageFile :=
  {| id := id img; original := original img; compressed := compressed img;
     originalUrl := originalUrl img; compressedUrl := compressedUrl img;
     status := Compressing; originalSize := originalSize img;
     compressedSize := compressedSize img; error := error img;
     aiAnalysis := aiAnalysis img |}.

(** [{ ...img, status: 'done', compressed: compressedBlob, compressedUrl,
       compressedSize: compressedBlob.size }] *)
Definition mark_done (compressedBlob : Blob.t) (compressedUrl : Url)
    (img : ImageFile) : ImageFile :=
  {| id := id img; original := original img; compressed := Some compressedBlob;
     originalUrl := originalUrl img; compressedUrl := Some compressedUrl;
     status := Done; originalSize := originalSize img;
     compressedSize := Some (Blob.size compressedBlob); error := error img;
     aiAnalysis := aiAnalysis img |}.

(** [{ ...img, status: 'error', error: err.message }] *)
Definition mark_error (message : string) (img : ImageFile) : ImageFile :=
  {| id := id img; original := original img; compressed := compressed img;
     originalUrl := originalUrl img; compressedUrl := compressedUrl img;
     status := Error; originalSize := originalSize img;
     compressedSize := compressedSize img; error := Some message;
     aiAnalysis := aiAnalysis img |}.

(** [{ ...img, aiAnalysis: aiResponse }] *)
Definition mark_analysis (aiResponse : string) (img : ImageFile) : ImageFile :=
  {| id := id img; original := original img; compressed := compressed img;
     originalUrl := originalUrl img; compressedUrl := compressedUrl img;
     status := status img; originalSize := originalSize img;
     compressedSize := compressedSize img; error := error img;
     aiAnalysis := Some aiResponse |}.

(** [prev.map(img => img.id === imageId ? f(img) : img)] *)
Definition update_item (imageId : string) (f : ImageFile -> ImageFile)
    (prev : list ImageFile) : list ImageFile :=
  (fun img => if decide (id img = imageId) then f img else img) <$> prev.

Section WithPlatform.
Context (env : Platform).

(** [processOne] up to its [await]: the guard, the [compressing] update and
    the call [compressImage(image.original, 800)]. *)
Definition processOne (image : ImageFile) (st : State) : State :=
  if decide (id image ∈ processingQueue st) then st
  else
    let st := set_processingQueue ({[id image]} ∪ processingQueue st) st in
    let st := setImages (update_item (id image) mark_compressing) st in
    let st :=
      log_call {| call_id := id image; call_file := original image;
                  call_targetSizeKb := Some 800%float;
                  call_maxWidth := None |} st in
    match imageProcessor.compressImage env (original image) (Some 800%float) None with
    | Some settled => set_awaiting (awaiting st ++ [(id image, settled)]) st
    | None => st
    end.

(** [processOne] from the [await] on: the rest of the [try] when the promise
    resolved, the [catch] when it rejected, then the [finally]. *)
Definition processOne_resume (imageId : string) (settled : Settled Blob.t)
    (st : State) : State :=
  let st :=
    match settled with
    | Resolved compressedBlob =>
        let '(compressedUrl, reg) := createObjectURL (urls st) in
        let st := set_urls reg st in
        let st :=
          set_analyses
            (analyses st ++
               [(imageId, geminiService.analyzeImage env compressedBlob)]) st in
        setImages (update_item imageId (mark_done compressedBlob compressedUrl)) st
    | Rejected message =>
        setImages (update_item imageId (mark_error message)) st
    end in
  set_processingQueue (processingQueue st ∖ {[imageId]}) st.

(** The [.then] callback attached to [analyzeImage(compressedBlob)]. *)
Definition analysis_then (imageId : string) (aiResponse : string)
    (st : State) : State :=
  setImages (update_item imageId (mark_analysis aiResponse)) st.

(** The items [handleFiles] builds; [Math.random()...] is the first
    component of each pair. *)
Fixpoint newImages (files : list (string * File.t)) (reg : UrlRegistry)
    : list ImageFile * UrlRegistry :=
  match files with
  | [] => ([], reg)
  | (rnd, file) :: rest =>
      let '(url, reg) := createObjectURL reg in
      let '(imgs, reg) := newImages rest reg in
      ({| id := rnd; original := file; compressed := None;
          originalUrl := url; compressedUrl := None; status := Pending;
          originalSize := File.size file; compressedSize := None;
          error := None; aiAnalysis := None |} :: imgs, reg)
  end.

Definition handleFiles (files : option (list (string * File.t)))
    (st : State) : State :=
  match files with
  | None => st
  | Some files =>
      let '(imgs, reg) := newImages files (urls st) in
      let st := set_urls reg st in
      let st := setImages (fun prev => prev ++ imgs) st in
      foldl (fun st img => processOne img st) st imgs
  end.

Definition removeImage (imageId : string) (st : State) : State :=
  let removed := find (fun img => bool_decide (id img = imageId)) (images st) in
  let reg :=
    match removed with
    | Some r =>
        let reg := revokeObjectURL (originalUrl r) (urls st) in
        match compressedUrl r with
        | Some url => revokeObjectURL url reg
        | None => reg
        end
    | None => urls st
    end in
  setImages (filter (fun img => id img ≠ imageId)) (set_urls reg st).

(** ** The event loop *)

Inductive Event : Type :=
| HandleFiles (files : option (list (string * File.t)))
| RemoveImage (imageId : string)
| ProcessOne (image : ImageFile)
| CompressionSettles (k : nat)
| AnalysisSettles (k : nat).

Definition step (ev : Event) (st : State) : State :=
  match ev with
  | HandleFiles files => handleFiles files st
  | RemoveImage imageId => removeImage imageId st
  | ProcessOne image => processOne image st
  | CompressionSettles k =>
      match awaiting st !! k with
      | Some (imageId, settled) =>
          processOne_resume imageId settled
            (set_awaiting (delete k (awaiting st)) st)
      | None => st
      end
  | AnalysisSettles k =>
      match analyses st !! k with
      | Some (imageId, aiResponse) =>
          analysis_then imageId aiResponse
            (set_analyses (delete k (analyses st)) st)
      | None => st
      end
  end.

Definition run (evs : list Event) (st : State) : State :=
  foldl (fun st ev => step ev st) st evs.

End WithPlatform.

(** An id is free when no item of the collection carries it. *)
Definition free (st : State) (i : string) : Prop :=
  i ∉ (id <$> images st).

(** The events the component itself produces: files are dropped, a remove
    button is clicked, a pending promise settles.  [processOne] is only
    reached through [handleFiles], and the ids drawn for new items are
    free. *)
Definition admissible (ev : Event) (st : State) : Prop :=
  match ev with
  | HandleFiles (Some files) => Forall (free st) (files.*1)
  | ProcessOne _ => False
  | _ => True
  end.

Fixpoint well_formed (env : Platform) (evs : list Event) (st : State) : Prop :=
  match evs with
  | [] => True
  | ev :: evs' => admissible ev st ∧ well_formed env evs' (step env ev st)
  end.

End App.


(* ===================================================================== *)
(** * Part II: vocabulary of the statements                               *)
(* ===================================================================== *)

Module Vocabulary.
Import imageProcessor types App.

(** The qualities the loop can reach: [nth_quality 0 .. nth_quality 11]. *)
Definition schedule : list float := map nth_quality (seq 0 12).

(** The decimal values the twelve qualities stand for. *)
Definition nominal_schedule : list float :=
  [0.92; 0.84; 0.76; 0.68; 0.60; 0.52; 0.44; 0.36; 0.28; 0.20; 0.12; 0.04]%float.

(** Equal up to the rounding the repeated subtraction accumulates. *)
Definition close (q r : float) : bool := (abs (q - r) <=? 1e-15)%float.

Definition all_close (qs rs : list float) : bool :=
  bool_decide (length qs = length rs) &&
  forallb (fun p => close (fst p) (snd p)) (combine qs rs).

(** An encoder whose output is always one byte; against a target of 0 KB
    every result is above the target. *)
Definition one_byte : Blob.t :=
  {| Blob.bytes := [Byte.x00]; Blob.type := "image/jpeg" |}.

Definition stubborn_encoder (q : float) : option Blob.t := Some one_byte.

(** A 3000 x 2000 photograph and a 640 x 480 thumbnail. *)
Definition wide_image : Image.t :=
  {| Image.width := 3000%float; Image.height := 2000%float |}.

Definition small_image : Image.t :=
  {| Image.width := 640%float; Image.height := 480%float |}.

(** The messages of the four [reject(new Error(...))] of [compressImage]. *)
Definition compress_errors : list string :=
  ["File read error"; "Image load error"; "Canvas context failed";
   "Compression failed"].

(** The sentence the [catch] of [analyzeImage] returns. *)
Definition analysis_fallback : string := "AI analysis could not be completed.".

(** [compressed] and [compressedSize] agree with [status]. *)
Definition item_ok (img : ImageFile) : Prop :=
  match status img with
  | Done =>
      exists blob, compressed img = Some blob /\
                   compressedSize img = Some (Blob.size blob)
  | _ => compressed img = None
  end.

(** The guard set holds exactly the ids of the runs suspended at their
    [await], and no id has two such runs. *)
Definition guard_inv (st : State) : Prop :=
  NoDup ((awaiting st).*1) /\
  (forall i, i ∈ processingQueue st <-> i ∈ (awaiting st).*1).

(** No item carrying the id [i] is [Done]. *)
Definition not_done_for (i : string) (st : State) : Prop :=
  forall img, img ∈ images st -> id img = i -> status img <> Done.

Definition inv (st : State) : Prop :=
  guard_inv st /\
  Forall item_ok (images st) /\
  (forall i, i ∈ (awaiting st).*1 -> not_done_for i st) /\
  (forall i message, (i, Rejected message) ∈ awaiting st ->
     message ∈ compress_errors).

(** A browser in which every step of [compressImage] succeeds, every encode
    yields one byte, and the analysis request throws. *)
Definition demo_platform : Platform :=
  {| readAsDataURL := fun _ => Some "data:image/png;base64,";
     loadImage := fun _ => Some wide_image;
     getContext2d := fun _ => true;
     toBlob := fun _ _ => Some one_byte;
     generateContent := fun _ => ApiThrows |}.

(** A browser that cannot decode the file. *)
Definition broken_platform : Platform :=
  {| readAsDataURL := fun _ => Some "data:text/plain;base64,";
     loadImage := fun _ => None;
     getContext2d := fun _ => true;
     toBlob := fun _ _ => Some one_byte;
     generateContent := fun _ => ApiThrows |}.

Definition demo_file : File.t :=
  {| File.name := "photo.png"; File.type := "image/png";
     File.bytes := [Byte.x00; Byte.x01] |}.

(** Every recorded call is written [compressImage(file, 800)]. *)
Definition as_written (c : CompressCall) : Prop :=
  call_targetSizeKb c = Some 800%float /\ call_maxWidth c = None.

(** The object URL [u] has been created, has not been revoked, and no item
    of the collection holds it. *)
Definition orphaned (u : Url) (st : State) : Prop :=
  u < length (created (urls st)) /\
  (u ∉ revoked (urls st)) /\
  (forall img, img ∈ images st ->
     originalUrl img <> u /\ compressedUrl img <> Some u).

(** One file is dropped and [Math.random] yields the id ["a"]. *)
Definition drop_a : Event := HandleFiles (Some [("a", demo_file)]).

(** The item [handleFiles] builds for it, and the same item under id ["b"]. *)
Definition image_a : ImageFile :=
  {| id := "a"; original := demo_file; compressed := None; originalUrl := 0;
     compressedUrl := None; status := Pending;
     originalSize := File.size demo_file; compressedSize := None;
     error := None; aiAnalysis := None |}.

Definition image_b : ImageFile :=
  {| id := "b"; original := demo_file; compressed := None; originalUrl := 0;
     compressedUrl := None; status := Pending;
     originalSize := File.size demo_file; compressedSize := None;
     error := None; aiAnalysis := None |}.

(** The item once its compression has resolved with [one_byte]. *)
Definition done_a : ImageFile := mark_done one_byte 1 (mark_compressing image_a).

(** The call [processOne] makes for it. *)
Definition call_a : CompressCall :=
  {| call_id := "a"; call_file := demo_file;
     call_targetSizeKb := Some 800%float; call_maxWidth := None |}.

End Vocabulary.
Import Vocabulary.

(* ===================================================================== *)
(** * Part II, continued: vocabulary of the further properties            *)
(* ===================================================================== *)

Module LoopVocabulary.

(** Each element is strictly below the one before it. *)
Fixpoint descending (l : list float) : bool :=
  match l with
  | a :: (b :: _) as rest => (b <? a)%float && descending rest
  | _ => true
  end.

(** A quality the canvas encoder honours: [0 < q <= 1]. *)
Definition in_range (q : float) : bool := ((0 <? q) && (q <=? 1))%float.

(** Not NaN. *)
Definition is_number (x : float) : bool := (x =? x)%float.

(** An encoder that always hands a null blob to the callback. *)
Definition null_encoder (q : float) : option Blob.t := None.

End LoopVocabulary.
Import LoopVocabulary.

(** ** App.tsx: what the component renders for an item *)

Module View.
Import types App.

(** [src={image.compressedUrl || image.originalUrl}] *)
Definition img_src (image : ImageFile) : Url :=
  default (originalUrl image) (compressedUrl image).

(** The bottom of a card: the download link when
    [image.status === 'done' && image.compressedUrl], else the error box
    when [image.status === 'error'], else the waiting box. *)
Inductive Footer : Type :=
| DownloadLink (href : Url)
| ErrorBox
| WaitingBox.

Definition footer (image : ImageFile) : Footer :=
  match status image, compressedUrl image with
  | Done, Some url => DownloadLink url
  | Error, _ => ErrorBox
  | _, _ => WaitingBox
  end.

(** [{image.aiAnalysis && (...)}]: the commentary box is rendered for a
    present, non-empty text. *)
Definition ai_box (image : ImageFile) : option string :=
  match aiAnalysis image with
  | Some text => if decide (text = "") then None else Some text
  | None => None
  end.

End View.

Module OrchestratorVocabulary.
Import types App View.

(** The fields of an item that are fixed when it is created. *)
Definition core (img : ImageFile) : string * File.t * Url * Z :=
  (id img, original img, originalUrl img, originalSize img).

(** The object URLs an item holds. *)
Definition urls_of (img : ImageFile) : list Url :=
  originalUrl img :: option_list (compressedUrl img).

(** The call [processOne] makes for a file dropped under the id [i]. *)
Definition call_for (p : string * File.t) : CompressCall :=
  {| call_id := p.1; call_file := p.2;
     call_targetSizeKb := Some 800%float; call_maxWidth := None |}.

(** The event neither drops a file under the id [i] nor is a direct
    [processOne] request. *)
Definition leaves_out (i : string) (ev : Event) : Prop :=
  match ev with
  | HandleFiles (Some files) => i ∉ files.*1
  | _ => True
  end.

(** Object URLs in use are registered and live, no two items with different
    ids share one, an item's two URLs differ, and nothing is revoked twice. *)
Definition url_inv (st : State) : Prop :=
  (forall img u, img ∈ images st -> u ∈ urls_of img ->
     u < length (created (urls st)) /\ (u ∉ revoked (urls st))) /\
  (forall img1 img2 u, img1 ∈ images st -> img2 ∈ images st ->
     id img1 <> id img2 -> u ∈ urls_of img1 -> u ∉ urls_of img2) /\
  (forall img, img ∈ images st -> compressedUrl img <> Some (originalUrl img)) /\
  NoDup (revoked (urls st)) /\
  (forall u, u ∈ revoked (urls st) -> u < length (created (urls st))).

(** [compressedUrl] agrees with [status]. *)
Definition link_ok (img : ImageFile) : Prop :=
  match status img with
  | Done => is_Some (compressedUrl img)
  | _ => compressedUrl img = None
  end.

(** No item carrying the id [i] is [Error]. *)
Definition not_error_for (i : string) (st : State) : Prop :=
  forall img, img ∈ images st -> id img = i -> status img <> Error.

(** Two items that differ at most in [aiAnalysis]. *)
Definition same_but_analysis (a b : ImageFile) : Prop :=
  core a = core b /\ compressed a = compressed b /\
  compressedUrl a = compressedUrl b /\ status a = status b /\
  compressedSize a = compressedSize b /\ error a = error b.

(** [error] agrees with [status]. *)
Definition error_ok (img : ImageFile) : Prop :=
  match status img with
  | Error => exists message, error img = Some message /\ message ∈ compress_errors
  | _ => error img = None
  end.

(** Every analysis text, pending or stored in an item, is non-empty. *)
Definition texts_ok (st : State) : Prop :=
  (forall i text, (i, text) ∈ analyses st -> text <> "") /\
  (forall img text, img ∈ images st -> aiAnalysis img = Some text -> text <> "").

(** Every [Compressing] item has a run in flight for its id. *)
Definition spinning_ok (st : State) : Prop :=
  forall img, img ∈ images st -> status img = Compressing ->
    id img ∈ (awaiting st).*1.

(** A browser whose analysis request answers with a text. *)
Definition chatty_platform : Platform :=
  {| readAsDataURL := fun _ => Some "data:image/png;base64,";
     loadImage := fun _ => Some wide_image;
     getContext2d := fun _ => true;
     toBlob := fun _ _ => Some one_byte;
     generateContent := fun _ => ApiResponse (Some "A sharp photo.") |}.

End OrchestratorVocabulary.
Import View OrchestratorVocabulary.

(** ** Encoders and browsers that tell runs apart *)

Module Probes.

(** A JPEG blob of [n] bytes. *)
Definition blob_of_size (n : nat) : Blob.t :=
  {| Blob.bytes := repeat Byte.x00 n; Blob.type := "image/jpeg" |}.

(** An encoder whose output shrinks with the quality: 2048 bytes (2 KB)
    above quality 0.5, 512 bytes (0.5 KB) from 0.5 down. *)
Definition shrinking_encoder (q : float) : option Blob.t :=
  if (0.5 <? q)%float then Some (blob_of_size 2048) else Some (blob_of_size 512).

(** A browser that decodes every file to [img] and whose encoder yields a
    blob only for a canvas of size [dw] x [dh] on which an image was drawn
    at [dw] x [dh]; for any other canvas it hands a null blob to the
    callback. *)
Definition probe_platform (img : Image.t) (dw dh : float) : Platform :=
  {| readAsDataURL := fun _ => Some "data:image/png;base64,";
     loadImage := fun _ => Some img;
     getContext2d := fun _ => true;
     toBlob := fun canvas _ =>
       match Canvas.drawn canvas with
       | Some (_, w, h) =>
           if ((w =? dw) && (h =? dh) &&
               (Canvas.width canvas =? dw) && (Canvas.height canvas =? dh))%float
           then Some one_byte
           else None
       | None => None
       end;
     generateContent := fun _ => ApiThrows |}.

End Probes.
Import Probes.
(* ===================================================================== *)
(** * Part II: the compression loop                                       *)
(* ===================================================================== *)

Section CompressionLoop.
Import imageProcessor.

Lemma nth_quality_succ k : nth_quality (S k) = (nth_quality k - step)%float.
Proof. reflexivity. Qed.

(** The floor test fails for the first eleven qualities and holds for the
    twelfth. *)
Lemma floor_not_reached k : k < 11 -> at_floor (nth_quality k) = false.
Proof.
  intros Hk.
  do 11 (destruct k as [|k]; [vm_compute; reflexivity|]).
  lia.
Qed.

Lemma floor_reached : at_floor (nth_quality 11) = true.
Proof. vm_compute. reflexivity. Qed.

Lemma attemptCompression_unfold fuel encode target q :
  attemptCompression (S fuel) encode target q =
  match encode q with
  | None => {| attempts := [q]; outcome := Some (Rejected "Compression failed") |}
  | Some blob =>
      if under_target target blob || at_floor q
      then {| attempts := [q]; outcome := Some (Resolved blob) |}
      else attempt q (attemptCompression fuel encode target (q - step)%float)
  end.
Proof. reflexivity. Qed.

(** The attempts of a run started at the [k]-th quality are consecutive
    qualities of the schedule. *)
Lemma attempts_consecutive encode target fuel : forall k,
  exists n, n <= fuel /\
    attempts (attemptCompression fuel encode target (nth_quality k)) =
    map nth_quality (seq k n).
Proof.
  induction fuel as [|fuel IH]; intros k.
  - exists 0. split; [lia | reflexivity].
  - rewrite attemptCompression_unfold.
    destruct (encode (nth_quality k)) as [blob|].
    + destruct (under_target target blob || at_floor (nth_quality k)).
      * exists 1. split; [lia | reflexivity].
      * destruct (IH (S k)) as (n & Hn & Heq).
        exists (S n). split; [lia|].
        cbn [attempt attempts]. rewrite <- nth_quality_succ, Heq. reflexivity.
    + exists 1. split; [lia | reflexivity].
Qed.

(** From the [k]-th quality on, at most [12 - k] calls are made, whatever the
    encoder answers and whatever the recursion budget. *)
Lemma attempts_bound encode target : forall d k fuel,
  k + d = 11 ->
  length (attempts (attemptCompression fuel encode target (nth_quality k))) <= S d.
Proof.
  induction d as [|d IH]; intros k fuel Hk.
  - assert (k = 11) as -> by lia.
    destruct fuel as [|fuel]; [cbn; lia|].
    rewrite attemptCompression_unfold.
    destruct (encode (nth_quality 11)) as [blob|]; [|cbn; lia].
    rewrite floor_reached, orb_true_r. cbn. lia.
  - destruct fuel as [|fuel]; [cbn; lia|].
    rewrite attemptCompression_unfold.
    destruct (encode (nth_quality k)) as [blob|]; [|cbn; lia].
    destruct (under_target target blob || at_floor (nth_quality k)); [cbn; lia|].
    cbn [attempt attempts length]. rewrite <- nth_quality_succ.
    specialize (IH (S k) fuel). lia.
Qed.

(** With a budget that covers the remaining schedule the promise settles. *)
Lemma attemptCompression_settles encode target : forall d k fuel,
  k + d = 11 -> d < fuel ->
  outcome (attemptCompression fuel encode target (nth_quality k)) <> None.
Proof.
  induction d as [|d IH]; intros k fuel Hk Hfuel.
  - assert (k = 11) as -> by lia.
    destruct fuel as [|fuel]; [lia|].
    rewrite attemptCompression_unfold.
    destruct (encode (nth_quality 11)) as [blob|]; [|discriminate].
    rewrite floor_reached, orb_true_r. discriminate.
  - destruct fuel as [|fuel]; [lia|].
    rewrite attemptCompression_unfold.
    destruct (encode (nth_quality k)) as [blob|]; [|discriminate].
    destruct (under_target target blob || at_floor (nth_quality k)); [discriminate|].
    cbn [attempt outcome]. rewrite <- nth_quality_succ.
    apply IH; lia.
Qed.

(** A larger budget does not change a run that settled. *)
Lemma attemptCompression_fuel_mono encode target : forall fuel fuel' q,
  fuel <= fuel' ->
  outcome (attemptCompression fuel encode target q) <> None ->
  attemptCompression fuel' encode target q = attemptCompression fuel encode target q.
Proof.
  induction fuel as [|fuel IH]; intros fuel' q Hle Hsettled.
  - cbn in Hsettled. congruence.
  - destruct fuel' as [|fuel']; [lia|].
    rewrite !attemptCompression_unfold in *.
    destruct (encode q) as [blob|]; [|reflexivity].
    destruct (under_target target blob || at_floor q); [reflexivity|].
    cbn [attempt outcome] in Hsettled.
    rewrite (IH fuel' (q - step)%float); [reflexivity | lia | exact Hsettled].
Qed.

End CompressionLoop.

Section CompressionLoopClaims.
Import imageProcessor.

(** The run from the [k]-th quality, when every call of the encoder yields a
    blob: it resolves with the blob of the first quality [n >= k] that passes
    a stop test, after trying exactly the qualities [k .. n]. *)
Lemma loop_from encode target :
  (forall q, encode q <> None) ->
  forall d k fuel,
  k + d = 11 -> d < fuel ->
  exists n blob,
    k <= n <= 11 /\
    encode (nth_quality n) = Some blob /\
    attemptCompression fuel encode target (nth_quality k) =
      {| attempts := map nth_quality (seq k (S n - k));
         outcome := Some (Resolved blob) |} /\
    (under_target target blob = true \/ at_floor (nth_quality n) = true) /\
    (forall j, k <= j < n ->
       exists bj, encode (nth_quality j) = Some bj /\
                  under_target target bj = false /\
                  at_floor (nth_quality j) = false).
Proof.
  intros Henc.
  induction d as [|d IH]; intros k fuel Hk Hfuel;
    (destruct fuel as [|fuel]; [lia|]);
    rewrite attemptCompression_unfold;
    destruct (encode (nth_quality k)) as [blob|] eqn:Hblob;
    try (exfalso; eapply Henc; eassumption).
  - assert (k = 11) as -> by lia.
    rewrite floor_reached, orb_true_r.
    exists 11, blob. split_and!; [lia | lia | assumption | reflexivity | | ].
    + right. exact floor_reached.
    + intros j Hj. lia.
  - destruct (under_target target blob) eqn:Hsize;
      [|destruct (at_floor (nth_quality k)) eqn:Hfloor]; cbn [orb].
    + exists k, blob. split_and!; [lia | lia | assumption | | | ].
      * replace (S k - k) with 1 by lia. reflexivity.
      * left. assumption.
      * intros j Hj. lia.
    + exists k, blob. split_and!; [lia | lia | assumption | | | ].
      * replace (S k - k) with 1 by lia. reflexivity.
      * right. assumption.
      * intros j Hj. lia.
    + destruct (IH (S k) fuel) as (n & b & Hn & Hb & Hrun & Hstop & Hbefore);
        [lia | lia |].
      exists n, b. split_and!; [lia | lia | assumption | | assumption | ].
      * rewrite <- nth_quality_succ, Hrun. cbn [attempt attempts outcome].
        replace (S n - k) with (S (S n - S k)) by lia. reflexivity.
      * intros j Hj. destruct (decide (j = k)) as [->|Hne].
        -- exists blob. split_and!; assumption.
        -- apply Hbefore. lia.
Qed.

(** The shrinking encoder against a target of 1 KB: 2 KB above the target
    for the first six qualities, 0.5 KB below it from the seventh on. *)
Lemma shrinking_big k :
  k < 6 -> shrinking_encoder (nth_quality k) = Some (blob_of_size 2048).
Proof.
  intros Hk. do 6 (destruct k as [|k]; [vm_compute; reflexivity|]). lia.
Qed.

Lemma shrinking_small k :
  6 <= k <= 11 -> shrinking_encoder (nth_quality k) = Some (blob_of_size 512).
Proof.
  intros Hk. do 6 (destruct k as [|k]; [lia|]).
  do 6 (destruct k as [|k]; [vm_compute; reflexivity|]). lia.
Qed.

Lemma big_above_1kb :
  (number_of_Z (Z.of_nat (length (Blob.bytes (blob_of_size 2048)))) / 1024 <=? 1)%float
  = false.
Proof. vm_compute. reflexivity. Qed.

Lemma small_below_1kb :
  (number_of_Z (Z.of_nat (length (Blob.bytes (blob_of_size 512)))) / 1024 <=? 1)%float
  = true.
Proof. vm_compute. reflexivity. Qed.

(** The only index at which a run on the shrinking encoder can stop. *)
Lemma shrinking_stop_index n blob :
  n <= 11 ->
  shrinking_encoder (nth_quality n) = Some blob ->
  ((number_of_Z (Z.of_nat (length (Blob.bytes blob))) / 1024 <=? 1)%float = true \/
   n = 11) ->
  (forall j, j < n ->
     exists bj, shrinking_encoder (nth_quality j) = Some bj /\
       (number_of_Z (Z.of_nat (length (Blob.bytes bj))) / 1024 <=? 1)%float = false) ->
  n = 6 /\ blob = blob_of_size 512.
Proof.
  intros Hn Hb Hstop Hbefore.
  destruct (Nat.lt_ge_cases n 6) as [Hlt|Hge].
  - exfalso. rewrite shrinking_big in Hb by exact Hlt. injection Hb as <-.
    destruct Hstop as [Hunder|Hlast]; [|lia].
    rewrite big_above_1kb in Hunder. discriminate.
  - rewrite shrinking_small in Hb by lia. injection Hb as <-.
    split; [|reflexivity].
    destruct (Nat.eq_dec n 6) as [Heq|Hne]; [exact Heq|]. exfalso.
    destruct (Hbefore 6) as (bj & Hbj & Hover); [lia|].
    rewrite shrinking_small in Hbj by lia. injection Hbj as <-.
    rewrite small_below_1kb in Hover. discriminate.
Qed.

(** C1. The compression loop starts at quality 0.92 and lowers the quality by
    0.08 on each retry.  For every encoder that yields a blob on every call
    and every target size, the loop resolves with the first encoded result
    whose size in KB, [blob.size / 1024], is at or below the target or whose
    quality satisfies the floor test [q <= 0.1], having tried exactly the
    qualities before it, none of which passed either test.  At the floor the
    current result is returned whatever its size: an oversized result is
    resolved, never rejected. *)
Theorem compression_loop_first_acceptable
    (encode : float -> option Blob.t) (target : float) (fuel : nat) :
  (forall q, encode q <> None) ->
  12 <= fuel ->
  nth_quality 0 = 0.92%float /\
  (forall j, nth_quality (S j) = (nth_quality j - 0.08)%float) /\
  (exists n blob,
     n <= 11 /\
     encode (nth_quality n) = Some blob /\
     attemptCompression fuel encode target quality =
       {| attempts := map nth_quality (seq 0 (S n));
          outcome := Some (Resolved blob) |} /\
     ((number_of_Z (Z.of_nat (length (Blob.bytes blob))) / 1024 <=? target)%float
        = true \/
      (nth_quality n <=? 0.1)%float = true) /\
     (forall j, j < n ->
        exists bj, encode (nth_quality j) = Some bj /\
          (number_of_Z (Z.of_nat (length (Blob.bytes bj))) / 1024 <=? target)%float
            = false /\
          (nth_quality j <=? 0.1)%float = false)) /\
  (forall q blob budget,
     encode q = Some blob -> (q <=? 0.1)%float = true ->
     (number_of_Z (Z.of_nat (length (Blob.bytes blob))) / 1024 <=? target)%float
       = false ->
     attemptCompression (S budget) encode target q =
       {| attempts := [q]; outcome := Some (Resolved blob) |}).
Proof.
  intros Henc Hfuel. split; [reflexivity|]. split; [reflexivity|]. split.
  - destruct (loop_from encode target Henc 11 0 fuel)
      as (n & blob & Hn & Hb & Hrun & Hstop & Hbefore); [lia | lia |].
    exists n, blob. split_and!; [lia | assumption | | exact Hstop | ].
    + rewrite Nat.sub_0_r in Hrun. exact Hrun.
    + intros j Hj. destruct (Hbefore j) as (bj & Hbj & Hsize & Hfloor); [lia|].
      exists bj. split_and!; [exact Hbj | exact Hsize | exact Hfloor].
  - intros q blob budget Hb Hfloor Hsize.
    change (at_floor q = true) in Hfloor.
    rewrite attemptCompression_unfold, Hb, Hfloor, orb_true_r. reflexivity.
Qed.

Lemma compression_loop_first_acceptable_witness :
  (forall q, shrinking_encoder q <> None) /\
  12 <= 12 /\
  attemptCompression 12 shrinking_encoder 1%float quality =
    {| attempts := map nth_quality (seq 0 7);
       outcome := Some (Resolved (blob_of_size 512)) |} /\
  (number_of_Z 2048 / 1024)%float = 2%float /\
  (number_of_Z 512 / 1024)%float = 0.5%float /\
  (nth_quality 6 <=? 0.1)%float = false /\
  (forall q, stubborn_encoder q <> None) /\
  outcome (attemptCompression 12 stubborn_encoder 0%float quality)
    = Some (Resolved one_byte) /\
  (number_of_Z (Z.of_nat (length (Blob.bytes one_byte))) / 1024 <=? 0)%float = false.
Proof.
  assert (Hshrink : forall q, shrinking_encoder q <> None).
  { intros q. unfold shrinking_encoder. destruct (0.5 <? q)%float; discriminate. }
  assert (Henc : forall q, stubborn_encoder q <> None) by (intros q; discriminate).
  assert (Hfuel : 12 <= 12) by lia.
  split; [exact Hshrink|]. split; [exact Hfuel|]. split.
  - destruct (compression_loop_first_acceptable shrinking_encoder 1%float 12
                Hshrink Hfuel)
      as (_ & _ & (n & blob & Hn & Hb & Hrun & Hstop & Hbefore) & _).
    assert (Hidx : n = 6 /\ blob = blob_of_size 512).
    { apply shrinking_stop_index; [exact Hn | exact Hb | |].
      - destruct Hstop as [Hunder|Hfloor]; [by left|]. right.
        destruct (Nat.eq_dec n 11) as [Heq|Hne]; [exact Heq|]. exfalso.
        change (at_floor (nth_quality n) = true) in Hfloor.
        rewrite floor_not_reached in Hfloor by lia. discriminate.
      - intros j Hj. destruct (Hbefore j Hj) as (bj & Hbj & Hover & _).
        by exists bj. }
    destruct Hidx as [-> ->]. exact Hrun.
  - split; [vm_compute; reflexivity|]. split; [vm_compute; reflexivity|].
    split; [vm_compute; reflexivity|]. split; [exact Henc|].
    destruct (compression_loop_first_acceptable stubborn_encoder 0%float 12
                Henc Hfuel)
      as (_ & _ & (n & blob & _ & Hb & Hrun & _) & _).
    split; [|vm_compute; reflexivity].
    rewrite Hrun. cbn. unfold stubborn_encoder in Hb. congruence.
Defined.

(** C5. For every encoder and every target size the loop makes at most
    [ceil((0.92 - 0.10) / 0.08) + 1 = 12] encode attempts, whatever the
    recursion budget of the model, and twelve unfoldings are enough for the
    promise to settle. *)
Theorem encode_attempts_bounded
    (encode : float -> option Blob.t) (target : float) (fuel : nat) :
  length (attempts (attemptCompression fuel encode target quality))
    <= Z.to_nat (Qceiling (((92 # 100) - (10 # 100)) / (8 # 100))%Q + 1) /\
  Z.to_nat (Qceiling (((92 # 100) - (10 # 100)) / (8 # 100))%Q + 1) = 12 /\
  outcome (attemptCompression (12 + fuel) encode target quality) <> None.
Proof.
  assert (Hc : Z.to_nat (Qceiling (((92 # 100) - (10 # 100)) / (8 # 100))%Q + 1) = 12)
    by (vm_compute; reflexivity).
  rewrite Hc. split; [|split; [reflexivity|]].
  - apply (attempts_bound encode target 11 0 fuel). lia.
  - apply (attemptCompression_settles encode target 11 0); lia.
Qed.

End CompressionLoopClaims.

Section QualitySchedule.
Import imageProcessor.

Lemma attempts_prefix encode target fuel :
  exists n, n <= 12 /\
    attempts (attemptCompression fuel encode target quality) = take n schedule.
Proof.
  destruct (attempts_consecutive encode target fuel 0) as (n & _ & Heq).
  pose proof (attempts_bound encode target 11 0 fuel eq_refl) as Hlen.
  change (nth_quality 0) with quality in *.
  rewrite Heq, length_map, length_seq in Hlen.
  exists n. split; [exact Hlen|].
  rewrite Heq. unfold schedule.
  rewrite firstn_map, take_seq. f_equal. f_equal. lia.
Qed.

Lemma schedule_above_last :
  Forall (fun q => (nth_quality 11 <=? q)%float = true) schedule.
Proof. unfold schedule. cbn [map seq]. repeat constructor. Qed.

(** C10. The floor test runs after the encode, so the qualities handed to the
    encoder are an initial segment of 0.92, 0.84, ..., 0.12, 0.04 (up to
    rounding of the repeated subtraction).  When every result down to the
    0.12 attempt is still above the target, a twelfth attempt runs at about
    0.04, strictly below the floor 0.10; no attempt ever uses a lower
    quality. *)
Theorem qualities_used
    (encode : float -> option Blob.t) (target : float) (fuel : nat) :
  (exists n, n <= 12 /\
     attempts (attemptCompression fuel encode target quality) = take n schedule) /\
  all_close schedule nominal_schedule = true /\
  ((forall j, j <= 10 ->
      exists b, encode (nth_quality j) = Some b /\ under_target target b = false) ->
   attempts (attemptCompression (12 + fuel) encode target quality) = schedule /\
   last schedule = Some (nth_quality 11)) /\
  (nth_quality 11 <? minQuality)%float = true /\
  close (nth_quality 11) 0.04%float = true /\
  (forall q, In q (attempts (attemptCompression fuel encode target quality)) ->
     (nth_quality 11 <=? q)%float = true).
Proof.
  split_and!.
  - apply attempts_prefix.
  - vm_compute. reflexivity.
  - intros Habove. split; [|reflexivity].
    assert (Hgo : forall d k budget, k + d = 11 -> d < budget ->
              attempts (attemptCompression budget encode target (nth_quality k))
              = map nth_quality (seq k (S d))).
    { induction d as [|d IH]; intros k budget Hk Hb;
        (destruct budget as [|budget]; [lia|]);
        rewrite attemptCompression_unfold.
      - assert (k = 11) as -> by lia.
        destruct (encode (nth_quality 11)); [|reflexivity].
        rewrite floor_reached, orb_true_r. reflexivity.
      - destruct (Habove k) as (b & -> & ->); [lia|].
        rewrite floor_not_reached by lia. cbn [orb attempt attempts].
        rewrite <- nth_quality_succ, (IH (S k) budget) by lia. reflexivity. }
    apply (Hgo 11 0); lia.
  - vm_compute. reflexivity.
  - vm_compute. reflexivity.
  - intros q Hq. destruct (attempts_prefix encode target fuel) as (n & _ & Heq).
    rewrite Heq in Hq.
    pose proof schedule_above_last as Hall.
    rewrite Forall_forall in Hall. apply Hall.
    apply (subseteq_take n). apply list_elem_of_In. exact Hq.
Qed.

Lemma qualities_used_witness :
  (forall j, j <= 10 ->
     exists b, stubborn_encoder (nth_quality j) = Some b /\
               under_target 0%float b = false) /\
  attempts (attemptCompression 12 stubborn_encoder 0%float quality) = schedule.
Proof.
  assert (Habove : forall j, j <= 10 ->
            exists b, stubborn_encoder (nth_quality j) = Some b /\
                      under_target 0%float b = false).
  { intros j _. exists one_byte. split; [reflexivity | vm_compute; reflexivity]. }
  split; [exact Habove|].
  destruct (qualities_used stubborn_encoder 0%float 0) as (_ & _ & Hfull & _).
  exact (proj1 (Hfull Habove)).
Defined.

End QualitySchedule.

(* ===================================================================== *)
(** * Part III: the resize step                                           *)
(* ===================================================================== *)

Section Resize.
Import imageProcessor.

(** Swapping the arguments of the IEEE comparison mirrors its result. *)
Lemma SFcompare_swap x y :
  SFcompare y x = option_map CompOpp (SFcompare x y).
Proof.
  destruct x as [sx|sx| |sx mx ex], y as [sy|sy| |sy my ey]; cbn;
    try reflexivity;
    try (destruct sx, sy; reflexivity).
  destruct sx, sy; cbn; try reflexivity;
    rewrite (Z.compare_antisym ex ey);
    destruct (ex ?= ey)%Z eqn:He; cbn; try reflexivity;
    change (Pos.compare_cont Eq my mx) with (Pos.compare my mx);
    change (Pos.compare_cont Eq mx my) with (Pos.compare mx my);
    rewrite (Pos.compare_antisym mx my);
    destruct (mx ?= my)%positive; reflexivity.
Qed.

(** [w <= m] excludes [w > m], also for infinities and NaN. *)
Lemma leb_not_gtb (w m : float) :
  (w <=? m)%float = true -> (m <? w)%float = false.
Proof.
  rewrite leb_spec, ltb_spec. unfold SFleb, SFltb.
  rewrite (SFcompare_swap (Prim2SF w) (Prim2SF m)).
  destruct (SFcompare (Prim2SF w) (Prim2SF m)) as [[]|]; cbn; congruence.
Qed.

(** [compressImage] encodes the canvas [surface] describes: once the file is
    read, the image decoded and the 2d context obtained, the retry loop runs
    on it. *)
Lemma compressImage_encodes_surface env fuel file target maxW dataUrl img :
  readAsDataURL env file = Some dataUrl ->
  loadImage env dataUrl = Some img ->
  getContext2d env
    {| Canvas.width := fst (resize img (default default_maxWidth maxW));
       Canvas.height := snd (resize img (default default_maxWidth maxW));
       Canvas.drawn := None |} = true ->
  compressImage_run env fuel file target maxW =
  attemptCompression fuel
    (toBlob env (surface img (default default_maxWidth maxW)))
    (default default_targetSizeKb target) quality.
Proof.
  intros Hread Hload Hctx. unfold compressImage_run, surface.
  rewrite Hread, Hload.
  destruct (resize img (default default_maxWidth maxW)) as [w h].
  cbn [fst snd] in Hctx. rewrite Hctx. reflexivity.
Qed.

(** The raster [surface] draws. *)
Lemma surface_drawn (img : Image.t) (maxWidth : float) :
  exists dw dh,
    Canvas.drawn (surface img maxWidth) = Some (img, dw, dh) /\
    ((maxWidth <? Image.width img)%float = true ->
       dw = maxWidth /\
       dh = (maxWidth / Image.width img * Image.height img)%float) /\
    ((Image.width img <=? maxWidth)%float = true ->
       dw = Image.width img /\ dh = Image.height img).
Proof.
  unfold surface, resize.
  destruct (maxWidth <? Image.width img)%float eqn:Hgt.
  - eexists _, _. split; [reflexivity|]. split.
    + intros _. split; reflexivity.
    + intros Hle. apply leb_not_gtb in Hle. congruence.
  - eexists _, _. split; [reflexivity|]. split.
    + intros Hgt'. discriminate.
    + intros _. split; reflexivity.
Qed.

(** C2. What [compressImage] does with a decoded image, for every browser,
    file and pair of arguments: it sizes the canvas, asks for the 2d
    context, draws the image and hands that canvas to the encoder.  When
    the intrinsic width exceeds [maxWidth], the canvas and the raster drawn
    on it have width exactly [maxWidth] and the intrinsic height times the
    same ratio [maxWidth / width]; when the intrinsic width is at or below
    [maxWidth], both dimensions are the intrinsic ones. *)
Theorem drawn_dimensions (env : Platform) (fuel : nat) (file : File.t)
    (target maxW : option float) (dataUrl : string) (img : Image.t) :
  readAsDataURL env file = Some dataUrl ->
  loadImage env dataUrl = Some img ->
  let maxWidth := default 2560%float maxW in
  let encoded_at (dw dh : float) : Run :=
    if getContext2d env
         {| Canvas.width := dw; Canvas.height := dh; Canvas.drawn := None |}
    then attemptCompression fuel
           (toBlob env {| Canvas.width := dw; Canvas.height := dh;
                          Canvas.drawn := Some (img, dw, dh) |})
           (default 800%float target) quality
    else {| attempts := [];
            outcome := Some (Rejected "Canvas context failed") |} in
  ((maxWidth <? Image.width img)%float = true ->
     compressImage_run env fuel file target maxW =
     encoded_at maxWidth (maxWidth / Image.width img * Image.height img)%float) /\
  ((Image.width img <=? maxWidth)%float = true ->
     compressImage_run env fuel file target maxW =
     encoded_at (Image.width img) (Image.height img)).
Proof.
  intros Hread Hload maxWidth encoded_at.
  assert (Hrun : compressImage_run env fuel file target maxW =
            encoded_at (resize img maxWidth).1 (resize img maxWidth).2).
  { unfold compressImage_run. rewrite Hread, Hload.
    change (default default_maxWidth maxW) with maxWidth.
    destruct (resize img maxWidth) as [w h]. unfold encoded_at. cbn [fst snd].
    by destruct (getContext2d env _). }
  rewrite Hrun. unfold resize. split.
  - intros Hgt. by rewrite Hgt.
  - intros Hle. apply leb_not_gtb in Hle. by rewrite Hle.
Qed.

Lemma drawn_dimensions_witness :
  (800 <? Image.width wide_image)%float = true /\
  (Image.width small_image <=? 800)%float = true /\
  ((533.333 <? 800 / 3000 * 2000) && (800 / 3000 * 2000 <? 533.334))%float = true /\
  outcome (compressImage_run
             (probe_platform wide_image 800%float (800 / 3000 * 2000)%float)
             12 demo_file (Some 800%float) (Some 800%float))
    = Some (Resolved one_byte) /\
  outcome (compressImage_run
             (probe_platform wide_image 3000%float 2000%float)
             12 demo_file (Some 800%float) (Some 800%float))
    = Some (Rejected "Compression failed") /\
  outcome (compressImage_run
             (probe_platform small_image 640%float 480%float)
             12 demo_file (Some 800%float) (Some 800%float))
    = Some (Resolved one_byte).
Proof.
  assert (Hwide : (800 <? Image.width wide_image)%float = true)
    by (vm_compute; reflexivity).
  assert (Hsmall : (Image.width small_image <=? 800)%float = true)
    by (vm_compute; reflexivity).
  split; [exact Hwide|]. split; [exact Hsmall|].
  split; [vm_compute; reflexivity|]. split_and!.
  - rewrite (proj1 (drawn_dimensions
                      (probe_platform wide_image 800%float (800 / 3000 * 2000)%float)
                      12 demo_file (Some 800%float) (Some 800%float)
                      "data:image/png;base64," wide_image eq_refl eq_refl) Hwide).
    vm_compute. reflexivity.
  - rewrite (proj1 (drawn_dimensions
                      (probe_platform wide_image 3000%float 2000%float)
                      12 demo_file (Some 800%float) (Some 800%float)
                      "data:image/png;base64," wide_image eq_refl eq_refl) Hwide).
    vm_compute. reflexivity.
  - rewrite (proj2 (drawn_dimensions
                      (probe_platform small_image 640%float 480%float)
                      12 demo_file (Some 800%float) (Some 800%float)
                      "data:image/png;base64," small_image eq_refl eq_refl) Hsmall).
    vm_compute. reflexivity.
Defined.

End Resize.

(* ===================================================================== *)
(** * Part IV: the orchestrator                                           *)
(* ===================================================================== *)

Section Orchestrator.
Import types App.
Context (env : Platform).

(** ** What [compressImage] can answer *)

Lemma compressImage_settles file target maxW :
  imageProcessor.compressImage env file target maxW <> None.
Proof.
  unfold imageProcessor.compressImage, imageProcessor.compressImage_run.
  destruct (readAsDataURL env file) as [dataUrl|]; [|discriminate].
  destruct (loadImage env dataUrl) as [img|]; [|discriminate].
  destruct (imageProcessor.resize img _) as [w h].
  destruct (negb _); [discriminate|].
  apply (attemptCompression_settles _ _ 11 0); unfold imageProcessor.loop_budget; lia.
Qed.

(** A larger budget gives the same run: the budget is no part of the
    behaviour. *)
Lemma compressImage_run_budget fuel file target maxW :
  imageProcessor.loop_budget <= fuel ->
  imageProcessor.compressImage_run env fuel file target maxW =
  imageProcessor.compressImage_run env imageProcessor.loop_budget file target maxW.
Proof.
  intros Hfuel. unfold imageProcessor.compressImage_run.
  destruct (readAsDataURL env file) as [dataUrl|]; [|reflexivity].
  destruct (loadImage env dataUrl) as [img|]; [|reflexivity].
  destruct (imageProcessor.resize img _) as [w h].
  destruct (negb _); [reflexivity|].
  apply attemptCompression_fuel_mono; [exact Hfuel|].
  apply (attemptCompression_settles _ _ 11 0); unfold imageProcessor.loop_budget; lia.
Qed.

Lemma attemptCompression_rejects encode target message : forall fuel q,
  imageProcessor.outcome (imageProcessor.attemptCompression fuel encode target q)
    = Some (Rejected message) ->
  message = "Compression failed".
Proof.
  induction fuel as [|fuel IH]; intros q; [discriminate|].
  rewrite attemptCompression_unfold.
  destruct (encode q) as [blob|]; [|cbn; congruence].
  destruct (_ || _); [discriminate|].
  cbn [imageProcessor.attempt imageProcessor.outcome]. apply IH.
Qed.

Lemma compressImage_rejects file target maxW message :
  imageProcessor.compressImage env file target maxW = Some (Rejected message) ->
  message ∈ compress_errors.
Proof.
  unfold imageProcessor.compressImage, imageProcessor.compressImage_run, compress_errors.
  destruct (readAsDataURL env file) as [dataUrl|];
    [|cbn; intros [= <-]; set_solver].
  destruct (loadImage env dataUrl) as [img|];
    [|cbn; intros [= <-]; set_solver].
  destruct (imageProcessor.resize img _) as [w h].
  destruct (negb _); [cbn; intros [= <-]; set_solver|].
  intros ->%attemptCompression_rejects. set_solver.
Qed.

(** ** The two halves of [processOne] *)

Lemma processOne_guarded image st :
  id image ∈ processingQueue st -> processOne env image st = st.
Proof. intros Hin. unfold processOne. rewrite decide_True by assumption. reflexivity. Qed.

Lemma processOne_started image st :
  id image ∉ processingQueue st ->
  exists settled,
    imageProcessor.compressImage env (original image) (Some 800%float) None
      = Some settled /\
    processOne env image st =
      {| images := update_item (id image) mark_compressing (images st);
         processingQueue := {[id image]} ∪ processingQueue st;
         urls := urls st;
         awaiting := awaiting st ++ [(id image, settled)];
         analyses := analyses st;
         calls := calls st ++
           [{| call_id := id image; call_file := original image;
               call_targetSizeKb := Some 800%float; call_maxWidth := None |}] |}.
Proof.
  intros Hnotin. unfold processOne. rewrite decide_False by assumption.
  destruct (imageProcessor.compressImage env (original image) (Some 800%float) None)
    as [settled|] eqn:Hc; [|by apply compressImage_settles in Hc].
  exists settled. split; reflexivity.
Qed.

Lemma processOne_resume_unfold i settled st :
  processOne_resume env i settled st =
  match settled with
  | Resolved blob =>
      {| images :=
           update_item i (mark_done blob (length (created (urls st)))) (images st);
         processingQueue := processingQueue st ∖ {[i]};
         urls := (createObjectURL (urls st)).2;
         awaiting := awaiting st;
         analyses := analyses st ++ [(i, geminiService.analyzeImage env blob)];
         calls := calls st |}
  | Rejected message =>
      {| images := update_item i (mark_error message) (images st);
         processingQueue := processingQueue st ∖ {[i]};
         urls := urls st;
         awaiting := awaiting st;
         analyses := analyses st;
         calls := calls st |}
  end.
Proof. destruct settled; reflexivity. Qed.

(** Removing the [k]-th entry of a list splits it around that entry. *)
Lemma delete_middle {A} (l : list A) k x :
  l !! k = Some x -> exists l1 l2, l = l1 ++ x :: l2 /\ delete k l = l1 ++ l2.
Proof.
  intros Hk. exists (take k l), (drop (S k) l). split.
  - symmetry. by apply take_drop_middle.
  - apply delete_take_drop.
Qed.

(** ** The guard *)

Lemma processOne_guard_inv image st :
  guard_inv st -> guard_inv (processOne env image st).
Proof.
  intros [Hnd Hiff].
  destruct (decide (id image ∈ processingQueue st)) as [Hin|Hnotin].
  - rewrite processOne_guarded by assumption. by split.
  - destruct (processOne_started image st Hnotin) as (settled & _ & ->).
    split; cbn [awaiting processingQueue].
    + rewrite fmap_app. apply NoDup_app. split_and!; [assumption | | apply NoDup_singleton].
      intros j Hj ->%list_elem_of_singleton. apply Hnotin, Hiff, Hj.
    + intros j. rewrite fmap_app, elem_of_app, elem_of_union, elem_of_singleton.
      cbn. rewrite list_elem_of_singleton, Hiff. tauto.
Qed.

Lemma resume_guard_inv st k i settled :
  guard_inv st ->
  awaiting st !! k = Some (i, settled) ->
  guard_inv (processOne_resume env i settled (set_awaiting (delete k (awaiting st)) st)).
Proof.
  intros [Hnd Hiff] Hk.
  destruct (delete_middle _ _ _ Hk) as (l1 & l2 & Hl & Hdel).
  rewrite Hl, fmap_app, fmap_cons in Hnd. cbn [fst] in Hnd.
  apply NoDup_app in Hnd as (Hnd1 & Hdisj & Hnd2).
  apply NoDup_cons in Hnd2 as [Hi2 Hnd2].
  assert (forall j, j ∈ processingQueue st <-> j ∈ l1.*1 \/ j = i \/ j ∈ l2.*1) as Hq.
  { intros j. rewrite Hiff, Hl, fmap_app, fmap_cons, elem_of_app, elem_of_cons. tauto. }
  rewrite processOne_resume_unfold.
  assert (NoDup ((l1 ++ l2).*1)) as Hnd'.
  { rewrite fmap_app. apply NoDup_app. split_and!; [assumption | | assumption].
    intros j Hj1 Hj2. apply (Hdisj j Hj1). by right. }
  assert (forall j, j ∈ processingQueue st ∖ {[i]} <-> j ∈ (l1 ++ l2).*1) as Hiff'.
  { intros j. rewrite elem_of_difference, elem_of_singleton, Hq, fmap_app, elem_of_app.
    split.
    - tauto.
    - intros [Hj|Hj].
      + split; [tauto|]. intros ->. apply (Hdisj i Hj). by left.
      + split; [tauto|]. intros ->. contradiction. }
  destruct settled; cbn [set_awaiting awaiting processingQueue]; rewrite Hdel;
    by split.
Qed.

Lemma foldl_processOne_guard_inv imgs : forall st,
  guard_inv st -> guard_inv (foldl (fun st img => processOne env img st) st imgs).
Proof.
  induction imgs as [|img imgs IH]; intros st Hst; [assumption|].
  cbn [foldl]. apply IH, processOne_guard_inv, Hst.
Qed.

Lemma step_guard_inv ev st : guard_inv st -> guard_inv (step env ev st).
Proof.
  intros Hst. destruct ev as [[files|]|i|image|k|k]; cbn [step].
  - unfold handleFiles. destruct (newImages files (urls st)) as [imgs reg].
    apply foldl_processOne_guard_inv. exact Hst.
  - exact Hst.
  - exact Hst.
  - apply processOne_guard_inv, Hst.
  - destruct (awaiting st !! k) as [[i settled]|] eqn:Hk; [|exact Hst].
    by apply resume_guard_inv.
  - destruct (analyses st !! k) as [[i text]|]; exact Hst.
Qed.

Lemma run_guard_inv evs : forall st,
  guard_inv st -> guard_inv (run env evs st).
Proof.
  induction evs as [|ev evs IH]; intros st Hst; [assumption|].
  apply IH, step_guard_inv, Hst.
Qed.

Lemma init_guard_inv : guard_inv init.
Proof. split; [constructor | intros i; cbn; set_solver]. Qed.

(** ** Items under the state updates *)

Lemma elem_of_update_item i f l img' :
  img' ∈ update_item i f l <->
  exists img, img ∈ l /\ img' = if decide (id img = i) then f img else img.
Proof.
  unfold update_item. rewrite list_elem_of_fmap. split.
  - intros (img & -> & Himg). by exists img.
  - intros (img & Himg & ->). by exists img.
Qed.

Lemma Forall_update_item (P : ImageFile -> Prop) i f l :
  Forall P l ->
  (forall img, img ∈ l -> id img = i -> P (f img)) ->
  Forall P (update_item i f l).
Proof.
  intros Hl Hf. apply Forall_forall. intros img' (img & Himg & ->)%elem_of_update_item.
  rewrite Forall_forall in Hl. destruct (decide (id img = i)); auto.
Qed.

Lemma item_ok_not_done img :
  item_ok img -> status img <> Done -> compressed img = None.
Proof. unfold item_ok. destruct (status img); congruence. Qed.

Lemma mark_compressing_ok img :
  item_ok img -> status img <> Done -> item_ok (mark_compressing img).
Proof. intros Hok Hnd. exact (item_ok_not_done img Hok Hnd). Qed.

Lemma mark_error_ok message img :
  item_ok img -> status img <> Done -> item_ok (mark_error message img).
Proof. intros Hok Hnd. exact (item_ok_not_done img Hok Hnd). Qed.

Lemma mark_done_ok blob url img : item_ok (mark_done blob url img).
Proof. exists blob. split; reflexivity. Qed.

Lemma mark_analysis_ok text img : item_ok img -> item_ok (mark_analysis text img).
Proof. intros Hok. exact Hok. Qed.

(** An update of the items carrying [i] leaves the [Done]-freedom of another
    id alone, and cannot spoil that of any id when it sets no [Done]. *)
Lemma not_done_for_update_other j i f (st st' : State) :
  images st' = update_item i f (images st) ->
  (forall img, id (f img) = id img) ->
  i <> j ->
  not_done_for j st -> not_done_for j st'.
Proof.
  intros Himgs Hid Hne Hnd img'. rewrite Himgs.
  intros (img & Himg & ->)%elem_of_update_item.
  destruct (decide (id img = i)) as [Hi|Hi].
  - rewrite Hid. congruence.
  - by apply Hnd.
Qed.

Lemma not_done_for_update_safe j i f (st st' : State) :
  images st' = update_item i f (images st) ->
  (forall img, id (f img) = id img) ->
  (forall img, status (f img) <> Done) ->
  not_done_for j st -> not_done_for j st'.
Proof.
  intros Himgs Hid Hf Hnd img'. rewrite Himgs.
  intros (img & Himg & ->)%elem_of_update_item.
  destruct (decide (id img = i)) as [Hi|Hi].
  - intros _. apply Hf.
  - by apply Hnd.
Qed.

Lemma processOne_not_done j image st :
  not_done_for j st -> not_done_for j (processOne env image st).
Proof.
  intros Hnd.
  destruct (decide (id image ∈ processingQueue st)) as [Hin|Hnotin].
  - by rewrite processOne_guarded.
  - destruct (processOne_started image st Hnotin) as (settled & _ & Hst').
    eapply (not_done_for_update_safe j (id image) mark_compressing st);
      [by rewrite Hst' | done | done | exact Hnd].
Qed.

(** ** The invariant of the component *)

Lemma processOne_inv image st :
  inv st -> not_done_for (id image) st -> inv (processOne env image st).
Proof.
  intros Hinv Himage.
  pose proof (processOne_guard_inv image st (proj1 Hinv)) as Hguard.
  pose proof (fun j => processOne_not_done j image st) as Hkeep.
  destruct Hinv as (_ & Hok & Hnd & Hrej).
  destruct (decide (id image ∈ processingQueue st)) as [Hin|Hnotin].
  - rewrite processOne_guarded by assumption.
    rewrite processOne_guarded in Hguard by assumption. by split_and!.
  - destruct (processOne_started image st Hnotin) as (settled & Hc & Hst').
    rewrite Hst' in *. split_and!; [exact Hguard | | | ]; cbn [images awaiting].
    + apply Forall_update_item; [exact Hok|].
      intros img Himg Hid. apply mark_compressing_ok.
      * rewrite Forall_forall in Hok. by apply Hok.
      * by apply Himage.
    + intros i. rewrite fmap_app, elem_of_app. cbn. rewrite list_elem_of_singleton.
      intros [Hi| ->]; apply Hkeep; auto.
    + intros i message. rewrite elem_of_app, list_elem_of_singleton.
      intros [Hi|[= -> <-]]; [by eapply Hrej|].
      by eapply compressImage_rejects.
Qed.

Lemma foldl_processOne_inv imgs : forall st,
  inv st ->
  (forall im, im ∈ imgs -> not_done_for (id im) st) ->
  inv (foldl (fun st img => processOne env img st) st imgs).
Proof.
  induction imgs as [|img imgs IH]; intros st Hst Hnd; [assumption|].
  cbn [foldl]. apply IH.
  - apply processOne_inv; [exact Hst|]. apply Hnd. by left.
  - intros im Him. apply processOne_not_done, Hnd. by right.
Qed.

Lemma resume_inv st k i settled :
  inv st ->
  awaiting st !! k = Some (i, settled) ->
  inv (processOne_resume env i settled (set_awaiting (delete k (awaiting st)) st)).
Proof.
  intros Hinv Hk.
  pose proof (resume_guard_inv st k i settled (proj1 Hinv) Hk) as Hguard.
  destruct Hinv as ((Hnodup & _) & Hok & Hnd & Hrej).
  destruct (delete_middle _ _ _ Hk) as (l1 & l2 & Hl & Hdel).
  assert (Hi : i ∈ (awaiting st).*1).
  { apply list_elem_of_fmap. exists (i, settled). split; [done|].
    by eapply list_elem_of_lookup_2. }
  assert (Hrest : forall j, j ∈ (delete k (awaiting st)).*1 ->
            i <> j /\ j ∈ (awaiting st).*1).
  { intros j. rewrite Hdel, Hl. rewrite Hl, fmap_app, fmap_cons in Hnodup.
    rewrite !fmap_app, fmap_cons, !elem_of_app, elem_of_cons. cbn [fst] in *.
    apply NoDup_app in Hnodup as (_ & Hdisj & [Hi2 _]%NoDup_cons).
    intros [Hj|Hj]; (split; [|tauto]); intros ->.
    - apply (Hdisj j Hj). by left.
    - contradiction. }
  assert (Hsub : forall x, x ∈ delete k (awaiting st) -> x ∈ awaiting st).
  { intros x. rewrite Hdel, Hl, !elem_of_app, elem_of_cons. tauto. }
  rewrite processOne_resume_unfold in *.
  destruct settled as [blob|message];
    (split_and!; [exact Hguard | | | ]); cbn [images awaiting set_awaiting urls].
  - apply Forall_update_item; [exact Hok|]. intros img _ _. apply mark_done_ok.
  - intros j [Hne Hj]%Hrest.
    eapply (not_done_for_update_other j i); [reflexivity | done | exact Hne | ].
    intros img Himg. by apply (Hnd j Hj).
  - intros j m Hjm%Hsub. by eapply Hrej.
  - apply Forall_update_item; [exact Hok|]. intros img Himg Hid.
    apply mark_error_ok.
    + rewrite Forall_forall in Hok. by apply Hok.
    + by apply (Hnd i Hi).
  - intros j [Hne Hj]%Hrest.
    eapply (not_done_for_update_other j i); [reflexivity | done | exact Hne | ].
    intros img Himg. by apply (Hnd j Hj).
  - intros j m Hjm%Hsub. by eapply Hrej.
Qed.

Lemma newImages_ids files : forall reg,
  id <$> (newImages files reg).1 = files.*1.
Proof.
  induction files as [|[rnd file] files IH]; intros reg; [reflexivity|].
  cbn [newImages]. destruct (createObjectURL reg) as [url reg'].
  specialize (IH reg'). destruct (newImages files reg') as [imgs reg''].
  cbn in *. by rewrite IH.
Qed.

Lemma newImages_pending files : forall reg,
  Forall (fun im => status im = Pending /\ compressed im = None)
    (newImages files reg).1.
Proof.
  induction files as [|[rnd file] files IH]; intros reg; [constructor|].
  cbn [newImages]. destruct (createObjectURL reg) as [url reg'].
  specialize (IH reg'). destruct (newImages files reg') as [imgs reg''].
  cbn in *. by constructor.
Qed.

Lemma handleFiles_inv files st :
  inv st -> Forall (free st) (files.*1) -> inv (handleFiles env (Some files) st).
Proof.
  intros (Hguard & Hok & Hnd & Hrej) Hfree. unfold handleFiles.
  pose proof (newImages_ids files (urls st)) as Hids.
  pose proof (newImages_pending files (urls st)) as Hpending.
  destruct (newImages files (urls st)) as [imgs reg]. cbn [fst] in *.
  rewrite Forall_forall in Hpending.
  apply foldl_processOne_inv.
  - split_and!; cbn [images awaiting setImages set_urls];
      [exact Hguard | | | exact Hrej].
    + apply Forall_app. split; [exact Hok|].
      apply Forall_forall. intros im [Hst Hc]%Hpending.
      unfold item_ok. by rewrite Hst.
    + intros i Hi img. cbn [images setImages set_urls].
      intros [Himg|Himg]%elem_of_app.
      * by apply (Hnd i Hi).
      * intros _. destruct (Hpending img Himg) as [-> _]. discriminate.
  - intros im Him img. cbn [images setImages set_urls].
    intros [Himg|Himg]%elem_of_app.
    + intros Hid. exfalso.
      rewrite Forall_forall in Hfree. apply (Hfree (id im)).
      * rewrite <- Hids. by apply list_elem_of_fmap_2.
      * rewrite <- Hid. by apply list_elem_of_fmap_2.
    + intros _. destruct (Hpending img Himg) as [-> _]. discriminate.
Qed.

Lemma removeImage_inv i st : inv st -> inv (removeImage i st).
Proof.
  intros (Hguard & Hok & Hnd & Hrej).
  split_and!; [exact Hguard | | | exact Hrej].
  - cbn [images removeImage setImages]. apply Forall_forall.
    intros img [_ Himg]%list_elem_of_filter.
    rewrite Forall_forall in Hok. by apply Hok.
  - intros j Hj img. cbn [images removeImage setImages].
    intros [_ Himg]%list_elem_of_filter. by apply (Hnd j Hj).
Qed.

Lemma analysis_then_inv i text k st :
  inv st -> inv (analysis_then i text (set_analyses k st)).
Proof.
  intros (Hguard & Hok & Hnd & Hrej).
  split_and!; [exact Hguard | | | exact Hrej]; cbn [images analysis_then setImages set_analyses].
  - apply Forall_update_item; [exact Hok|]. intros img Himg _.
    apply mark_analysis_ok. rewrite Forall_forall in Hok. by apply Hok.
  - intros j Hj img' (img & Himg & ->)%elem_of_update_item Hid.
    destruct (decide (id img = i)); by apply (Hnd j Hj img).
Qed.

Lemma step_inv ev st : admissible ev st -> inv st -> inv (step env ev st).
Proof.
  intros Hadm Hst. destruct ev as [[files|]|i|image|k|k]; cbn [step].
  - by apply handleFiles_inv.
  - exact Hst.
  - by apply removeImage_inv.
  - destruct Hadm.
  - destruct (awaiting st !! k) as [[i settled]|] eqn:Hk; [|exact Hst].
    by apply resume_inv.
  - destruct (analyses st !! k) as [[i text]|]; [|exact Hst].
    by apply analysis_then_inv.
Qed.

Lemma run_inv evs : forall st,
  well_formed env evs st -> inv st -> inv (run env evs st).
Proof.
  induction evs as [|ev evs IH]; intros st Hwf Hst; [assumption|].
  destruct Hwf as [Hadm Hwf]. apply IH; [exact Hwf|]. by apply step_inv.
Qed.

Lemma init_inv : inv init.
Proof.
  split_and!.
  - apply init_guard_inv.
  - constructor.
  - intros i Hi. cbn in Hi. by apply elem_of_nil in Hi.
  - intros i m Him. cbn in Him. by apply elem_of_nil in Him.
Qed.

End Orchestrator.

(* ===================================================================== *)
(** * Part V: properties of the orchestrator                              *)
(* ===================================================================== *)

Section Guard.
Import types App.
Context (env : Platform).

(** C6. In every state the component can reach, whatever requests were made,
    the guard set holds exactly the ids of the runs in flight, at most one
    run per id.  A request for an id in flight changes nothing (no second
    compression run); a request for another id adds the id to the guard set
    and starts exactly one run, and repeating it at once changes nothing.
    When a run finishes, by success or by failure, its id leaves the guard
    set. *)
Theorem guard_single_run (evs : list Event) (image : ImageFile) :
  let st := run env evs init in
  NoDup ((awaiting st).*1) /\
  (forall i, i ∈ processingQueue st <-> i ∈ (awaiting st).*1) /\
  ((id image ∈ (awaiting st).*1) -> processOne env image st = st) /\
  ((id image ∉ (awaiting st).*1) ->
     let st' := processOne env image st in
     id image ∈ processingQueue st' /\
     length (calls st') = S (length (calls st)) /\
     length (awaiting st') = S (length (awaiting st)) /\
     processOne env image st' = st') /\
  (forall k i settled,
     awaiting st !! k = Some (i, settled) ->
     let st' := step env (CompressionSettles k) st in
     (i ∉ processingQueue st') /\ (i ∉ (awaiting st').*1)).
Proof.
  intros st.
  assert (Hguard : guard_inv st) by apply run_guard_inv, init_guard_inv.
  destruct Hguard as [Hnodup Hiff]. split_and!; [exact Hnodup | exact Hiff | | | ].
  - intros Hin. apply processOne_guarded, Hiff, Hin.
  - intros Hnotin st'.
    assert (Hq : id image ∉ processingQueue st) by (by rewrite Hiff).
    destruct (processOne_started env image st Hq) as (settled & _ & Hst').
    assert (Hin' : id image ∈ processingQueue st').
    { unfold st'. rewrite Hst'. cbn. apply elem_of_union_l, elem_of_singleton_2.
      reflexivity. }
    split_and!; [exact Hin' | | | by apply processOne_guarded].
    + unfold st'. rewrite Hst'. cbn. rewrite length_app. cbn. lia.
    + unfold st'. rewrite Hst'. cbn. rewrite length_app. cbn. lia.
  - intros k i settled Hk st'.
    pose proof (resume_guard_inv env st k i settled (conj Hnodup Hiff) Hk)
      as [_ Hiff'].
    assert (Hout : i ∉ processingQueue st').
    { unfold st'. cbn [step]. rewrite Hk, processOne_resume_unfold.
      destruct settled; cbn; rewrite elem_of_difference, elem_of_singleton; tauto. }
    split; [exact Hout|].
    unfold st'. cbn [step]. rewrite Hk. rewrite <- Hiff'.
    unfold st' in Hout. cbn [step] in Hout. by rewrite Hk in Hout.
Qed.

End Guard.

Section Lifecycle.
Import types App.
Context (env : Platform).

(** C8. At every point of the life of every item of the collection,
    [compressed] is present if and only if [status] is [Done], and when
    [status] is [Done], [compressedSize] is the byte length of
    [compressed]. *)
Theorem compressed_iff_done (evs : list Event) (img : ImageFile) :
  well_formed env evs init ->
  img ∈ images (run env evs init) ->
  (is_Some (compressed img) <-> status img = Done) /\
  (status img = Done ->
     exists blob,
       compressed img = Some blob /\
       compressedSize img = Some (Z.of_nat (length (Blob.bytes blob)))).
Proof.
  intros Hwf Himg.
  destruct (run_inv env evs init Hwf init_inv) as (_ & Hok & _).
  rewrite Forall_forall in Hok. specialize (Hok img Himg).
  unfold item_ok in Hok. split.
  - destruct (status img); try (rewrite Hok; split; [by intros [? ?]|done]).
    destruct Hok as (blob & -> & _). by split.
  - intros Hdone. rewrite Hdone in Hok. exact Hok.
Qed.

(** C7. When [compressImage] rejects (file read, decode, canvas or encode
    failure), the [catch] of [processOne] records it: every item carrying
    the id gets [status] [Error] and the rejection's message, which is one of
    the four non-empty messages of [compressImage], and its [compressed]
    stays unset; items with another id are left as they were, the collection
    keeps its length and ids, and the run's id leaves the guard set.  The
    step is an ordinary state update: nothing is thrown to whoever dropped
    the files. *)
Theorem compress_failure_recorded
    (evs : list Event) (k : nat) (i message : string) :
  well_formed env evs init ->
  awaiting (run env evs init) !! k = Some (i, Rejected message) ->
  let st := run env evs init in
  let st' := step env (CompressionSettles k) st in
  message ∈ compress_errors /\
  message <> "" /\
  (forall img, img ∈ images st' -> id img = i ->
     status img = Error /\ error img = Some message /\ compressed img = None) /\
  (forall img, id img <> i -> img ∈ images st' <-> img ∈ images st) /\
  id <$> images st' = id <$> images st /\
  i ∉ processingQueue st'.
Proof.
  intros Hwf Hk st st'.
  destruct (run_inv env evs init Hwf init_inv) as (_ & Hok & Hnd & Hrej).
  fold st in Hok, Hnd, Hrej, Hk.
  assert (Hmsg : message ∈ compress_errors).
  { apply (Hrej i). by eapply list_elem_of_lookup_2. }
  assert (Hi : i ∈ (awaiting st).*1).
  { apply list_elem_of_fmap. exists (i, Rejected message). split; [done|].
    by eapply list_elem_of_lookup_2. }
  assert (Himgs : images st' = update_item i (mark_error message) (images st)).
  { unfold st'. cbn [step]. by rewrite Hk, processOne_resume_unfold. }
  split_and!.
  - exact Hmsg.
  - intros ->. unfold compress_errors in Hmsg.
    repeat (apply elem_of_cons in Hmsg as [Hmsg|Hmsg]; [discriminate|]).
    by apply elem_of_nil in Hmsg.
  - intros img'. rewrite Himgs. intros (img & Himg & ->)%elem_of_update_item Hid.
    destruct (decide (id img = i)) as [Heq|Hne]; [|done].
    split_and!; [reflexivity | reflexivity |]. cbn.
    rewrite Forall_forall in Hok.
    apply item_ok_not_done; [by apply Hok | by apply (Hnd i Hi)].
  - intros img' Hne. rewrite Himgs, elem_of_update_item. split.
    + intros (img & Himg & ->). destruct (decide (id img = i)); [|done].
      by destruct Hne.
    + intros Himg. exists img'. split; [done|]. by rewrite decide_False.
  - rewrite Himgs. unfold update_item. rewrite <- list_fmap_compose.
    apply list_fmap_ext. intros ? img _. cbn. by destruct (decide (id img = i)).
  - unfold st'. cbn [step]. rewrite Hk, processOne_resume_unfold. cbn.
    rewrite elem_of_difference, elem_of_singleton. tauto.
Qed.

End Lifecycle.

Section Configuration.
Import types App.
Context (env : Platform).

Lemma processOne_calls image st :
  Forall as_written (calls st) -> Forall as_written (calls (processOne env image st)).
Proof.
  intros Hst.
  destruct (decide (id image ∈ processingQueue st)) as [Hin|Hnotin].
  - by rewrite processOne_guarded.
  - destruct (processOne_started env image st Hnotin) as (settled & _ & ->).
    cbn [calls]. apply Forall_app. split; [exact Hst|].
    constructor; [|constructor]. by split.
Qed.

Lemma foldl_processOne_calls imgs : forall st,
  Forall as_written (calls st) ->
  Forall as_written (calls (foldl (fun st img => processOne env img st) st imgs)).
Proof.
  induction imgs as [|img imgs IH]; intros st Hst; [assumption|].
  cbn [foldl]. apply IH, processOne_calls, Hst.
Qed.

Lemma step_calls ev st :
  Forall as_written (calls st) -> Forall as_written (calls (step env ev st)).
Proof.
  intros Hst. destruct ev as [[files|]|i|image|k|k]; cbn [step].
  - unfold handleFiles. destruct (newImages files (urls st)) as [imgs reg].
    apply foldl_processOne_calls. exact Hst.
  - exact Hst.
  - exact Hst.
  - apply processOne_calls, Hst.
  - destruct (awaiting st !! k) as [[i settled]|]; [|exact Hst].
    rewrite processOne_resume_unfold. by destruct settled.
  - destruct (analyses st !! k) as [[i text]|]; exact Hst.
Qed.

Lemma run_calls evs : forall st,
  Forall as_written (calls st) -> Forall as_written (calls (run env evs st)).
Proof.
  induction evs as [|ev evs IH]; intros st Hst; [assumption|].
  apply IH, step_calls, Hst.
Qed.

(** C3, as the code has it.  Every call of the compressor made by the
    orchestrator passes 800 as the target size and omits the maximum width,
    so the compressor works with a target of 800 KB and its own default
    maximum width of 2560 px. *)
Theorem compressor_configuration (evs : list Event) (c : CompressCall) :
  c ∈ calls (run env evs init) ->
  call_targetSizeKb c = Some 800%float /\
  call_maxWidth c = None /\
  effective c = {| targetSizeKb := 800%float; maxWidth := 2560%float |}.
Proof.
  intros Hc.
  assert (Hall : Forall as_written (calls (run env evs init)))
    by (apply run_calls; constructor).
  rewrite Forall_forall in Hall. destruct (Hall c Hc) as [Ht Hm].
  split_and!; [exact Ht | exact Hm |].
  unfold effective. by rewrite Ht, Hm.
Qed.

End Configuration.

Section Analysis.
Import types App.
Context (env : Platform).

(** Whenever a pending analysis text is delivered, every item carrying its
    id receives it, and no [status] changes. *)
Lemma analysis_settles_sets_text st k i text :
  analyses st !! k = Some (i, text) ->
  let st' := step env (AnalysisSettles k) st in
  (forall img, img ∈ images st' -> id img = i -> aiAnalysis img = Some text) /\
  status <$> images st' = status <$> images st.
Proof.
  intros Hk st'.
  assert (Himgs : images st' = update_item i (mark_analysis text) (images st)).
  { unfold st'. cbn [step]. by rewrite Hk. }
  rewrite Himgs. split.
  - intros img' (img & Himg & ->)%elem_of_update_item Hid.
    by destruct (decide (id img = i)).
  - unfold update_item. rewrite <- list_fmap_compose.
    apply list_fmap_ext. intros ? img _. cbn. by destruct (decide (id img = i)).
Qed.

(** C4, as the code has it.  When the compression of an item has resolved
    and the analysis request throws inside [analyzeImage], the [catch]
    makes [analyzeImage] resolve with its fixed sentence: the item reaches
    [Done], and when the analysis promise settles the item's [aiAnalysis] is
    that sentence (it is not left unset) while its [status] stays [Done]. *)
Theorem analysis_failure_sets_fallback
    (st : State) (k : nat) (i : string) (blob : Blob.t) :
  awaiting st !! k = Some (i, Resolved blob) ->
  generateContent env blob = ApiThrows ->
  let st1 := step env (CompressionSettles k) st in
  let st2 := step env (AnalysisSettles (length (analyses st))) st1 in
  geminiService.analyzeImage env blob = analysis_fallback /\
  (forall img, img ∈ images st1 -> id img = i -> status img = Done) /\
  analyses st1 = analyses st ++ [(i, analysis_fallback)] /\
  (forall img, img ∈ images st2 -> id img = i ->
     status img = Done /\ aiAnalysis img = Some analysis_fallback).
Proof.
  intros Hk Hthrows st1 st2.
  assert (Hfallback : geminiService.analyzeImage env blob = analysis_fallback).
  { unfold geminiService.analyzeImage. by rewrite Hthrows. }
  assert (Hst1 : images st1 =
            update_item i (mark_done blob (length (created (urls st)))) (images st)
          /\ analyses st1 = analyses st ++ [(i, analysis_fallback)]).
  { unfold st1. cbn [step]. rewrite Hk, processOne_resume_unfold. cbn.
    by rewrite Hfallback. }
  destruct Hst1 as [Himgs1 Han1].
  assert (Hdone : forall img, img ∈ images st1 -> id img = i -> status img = Done).
  { intros img'. rewrite Himgs1. intros (img & Himg & ->)%elem_of_update_item Hid.
    by destruct (decide (id img = i)). }
  assert (Hlook : analyses st1 !! length (analyses st) = Some (i, analysis_fallback)).
  { rewrite Han1. by apply list_lookup_middle. }
  split_and!; [exact Hfallback | exact Hdone | exact Han1 |].
  intros img' Himg' Hid.
  assert (Himgs2 : images st2 =
            update_item i (mark_analysis analysis_fallback) (images st1)).
  { unfold st2. cbn [step]. by rewrite Hlook. }
  rewrite Himgs2 in Himg'. apply elem_of_update_item in Himg' as (img & Himg & ->).
  destruct (decide (id img = i)) as [Heq|Hne]; [|done].
  split; [|reflexivity]. cbn. by apply Hdone.
Qed.

End Analysis.

Section ObjectUrls.
Import types App.
Context (env : Platform).

Lemma not_elem_of_snoc (l : list Url) (x u : Url) :
  u ∉ l -> x <> u -> u ∉ l ++ [x].
Proof.
  intros Hl Hx [Hin| ->%list_elem_of_singleton]%elem_of_app; [by apply Hl | by apply Hx].
Qed.

Lemma newImages_cons rnd file files reg :
  newImages ((rnd, file) :: files) reg =
  let reg1 := {| created := created reg ++ [length (created reg)];
                 revoked := revoked reg |} in
  ({| id := rnd; original := file; compressed := None;
      originalUrl := length (created reg); compressedUrl := None;
      status := Pending; originalSize := File.size file;
      compressedSize := None; error := None; aiAnalysis := None |}
     :: (newImages files reg1).1,
   (newImages files reg1).2).
Proof. cbn. by destruct (newImages files _). Qed.

Lemma newImages_urls files : forall reg,
  revoked (newImages files reg).2 = revoked reg /\
  length (created reg) <= length (created (newImages files reg).2) /\
  Forall (fun im => length (created reg) <= originalUrl im /\ compressedUrl im = None)
    (newImages files reg).1.
Proof.
  induction files as [|[rnd file] files IH]; intros reg.
  - cbn. split_and!; [done | lia | constructor].
  - rewrite newImages_cons. cbn zeta.
    specialize (IH {| created := created reg ++ [length (created reg)];
                      revoked := revoked reg |}).
    cbn [fst snd created revoked] in *. rewrite length_app in IH. cbn in IH.
    destruct IH as (Hrev & Hlen & Hall). split_and!; [exact Hrev | lia |].
    constructor; [cbn; split; [lia|done]|].
    eapply Forall_impl; [exact Hall|]. cbn. intros im [? ?]. split; [lia|done].
Qed.

Lemma processOne_urls u image st :
  orphaned u st -> orphaned u (processOne env image st).
Proof.
  intros (Hlt & Hrev & Hitems).
  destruct (decide (id image ∈ processingQueue st)) as [Hin|Hnotin].
  - by rewrite processOne_guarded.
  - destruct (processOne_started env image st Hnotin) as (settled & _ & ->).
    unfold orphaned; split_and!; [exact Hlt | exact Hrev |]. cbn [images].
    intros img' (img & Himg & ->)%elem_of_update_item.
    destruct (decide (id img = id image)); by apply (Hitems img).
Qed.

Lemma foldl_processOne_urls u imgs : forall st,
  orphaned u st -> orphaned u (foldl (fun st img => processOne env img st) st imgs).
Proof.
  induction imgs as [|img imgs IH]; intros st Hst; [assumption|].
  cbn [foldl]. apply IH, processOne_urls, Hst.
Qed.

(** A URL that was created, is not revoked and is held by no item stays so
    for ever: no later event revokes it. *)
Lemma step_orphaned u ev st : orphaned u st -> orphaned u (step env ev st).
Proof.
  intros Hst. pose proof Hst as (Hlt & Hrev & Hitems).
  destruct ev as [[files|]|i|image|k|k]; cbn [step].
  - unfold handleFiles.
    pose proof (newImages_urls files (urls st)) as (Hr & Hlen & Hall).
    destruct (newImages files (urls st)) as [imgs reg]. cbn [fst snd] in *.
    apply foldl_processOne_urls. unfold orphaned; split_and!; cbn [urls images setImages set_urls].
    + lia.
    + by rewrite Hr.
    + intros img [Himg|Himg]%elem_of_app; [by apply Hitems|].
      rewrite Forall_forall in Hall. destruct (Hall img Himg) as [Hge ->].
      split; [lia|done].
  - exact Hst.
  - unfold removeImage.
    destruct (find _ (images st)) as [r|] eqn:Hfind.
    + apply find_some in Hfind as [Hr%list_elem_of_In _].
      destruct (Hitems r Hr) as [Ho Hc].
      unfold orphaned; split_and!; cbn [urls images setImages set_urls].
      * by destruct (compressedUrl r).
      * destruct (compressedUrl r) as [cu|]; cbn;
          repeat (apply not_elem_of_snoc; [|congruence]); exact Hrev.
      * intros img [_ Himg]%list_elem_of_filter. by apply Hitems.
    + unfold orphaned; split_and!; cbn [urls images setImages set_urls]; [exact Hlt | exact Hrev |].
      intros img [_ Himg]%list_elem_of_filter. by apply Hitems.
  - by apply processOne_urls.
  - destruct (awaiting st !! k) as [[i settled]|]; [|exact Hst].
    rewrite processOne_resume_unfold.
    destruct settled as [blob|message]; unfold orphaned; split_and!;
      cbn [urls images set_awaiting createObjectURL created revoked snd];
      try assumption.
    + rewrite length_app. cbn. lia.
    + intros img' (img & Himg & ->)%elem_of_update_item.
      destruct (Hitems img Himg) as [Ho Hc].
      destruct (decide (id img = i)); cbn; [|done].
      split; [done|]. intros [= Heq]. lia.
    + intros img' (img & Himg & ->)%elem_of_update_item.
      destruct (decide (id img = i)); by apply (Hitems img).
  - destruct (analyses st !! k) as [[i text]|]; [|exact Hst].
    unfold orphaned; split_and!; cbn [urls images analysis_then setImages set_analyses];
      [exact Hlt | exact Hrev |].
    intros img' (img & Himg & ->)%elem_of_update_item.
    destruct (decide (id img = i)); by apply (Hitems img).
Qed.

Lemma run_orphaned u evs : forall st,
  orphaned u st -> orphaned u (run env evs st).
Proof.
  induction evs as [|ev evs IH]; intros st Hst; [assumption|].
  apply IH, step_orphaned, Hst.
Qed.

End ObjectUrls.

(* ===================================================================== *)
(** * Part VI: the properties at concrete inputs                          *)
(* ===================================================================== *)

Section Scenarios.
Import types App.

Lemma guard_single_run_witness :
  let st := run demo_platform [drop_a] init in
  (id image_a ∈ (awaiting st).*1) /\
  processOne demo_platform image_a st = st /\
  (id image_b ∉ (awaiting st).*1) /\
  length (calls (processOne demo_platform image_b st)) = S (length (calls st)) /\
  awaiting st !! 0 = Some ("a", Resolved one_byte) /\
  ("a" ∉ processingQueue (step demo_platform (CompressionSettles 0) st)).
Proof.
  intros st.
  assert (Haw : awaiting st = [("a", Resolved one_byte)])
    by (vm_compute; reflexivity).
  assert (Ha : id image_a ∈ (awaiting st).*1)
    by (rewrite Haw; apply list_elem_of_here).
  assert (Hb : id image_b ∉ (awaiting st).*1).
  { rewrite Haw. intros [Heq|Hin]%elem_of_cons; [discriminate|].
    by apply elem_of_nil in Hin. }
  assert (Hk : awaiting st !! 0 = Some ("a", Resolved one_byte))
    by (rewrite Haw; reflexivity).
  pose proof (guard_single_run demo_platform [drop_a] image_a) as Hga.
  pose proof (guard_single_run demo_platform [drop_a] image_b) as Hgb.
  cbv zeta in Hga, Hgb. fold st in Hga, Hgb.
  destruct Hga as (_ & _ & Hnoop & _ & Hsettle).
  destruct Hgb as (_ & _ & _ & Hstart & _).
  split_and!; [exact Ha | exact (Hnoop Ha) | exact Hb | | exact Hk | ].
  - exact (proj1 (proj2 (Hstart Hb))).
  - exact (proj1 (Hsettle 0 "a" (Resolved one_byte) Hk)).
Defined.

Lemma compressed_iff_done_witness :
  well_formed demo_platform [drop_a; CompressionSettles 0] init /\
  (done_a ∈ images (run demo_platform [drop_a; CompressionSettles 0] init)) /\
  status done_a = Done /\
  (is_Some (compressed done_a) <-> status done_a = Done) /\
  (exists blob,
     compressed done_a = Some blob /\
     compressedSize done_a = Some (Z.of_nat (length (Blob.bytes blob)))).
Proof.
  assert (Hwf : well_formed demo_platform [drop_a; CompressionSettles 0] init).
  { split; [|done]. cbn. constructor; [|constructor].
    unfold free. cbn. apply not_elem_of_nil. }
  assert (Hin : done_a ∈ images (run demo_platform [drop_a; CompressionSettles 0] init))
    by (vm_compute; apply list_elem_of_here).
  destruct (compressed_iff_done demo_platform _ done_a Hwf Hin) as [Hiff Hsize].
  split_and!; [exact Hwf | exact Hin | reflexivity | exact Hiff | exact (Hsize eq_refl)].
Defined.

Lemma compress_failure_recorded_witness :
  let st := run broken_platform [drop_a] init in
  let st' := step broken_platform (CompressionSettles 0) st in
  well_formed broken_platform [drop_a] init /\
  awaiting st !! 0 = Some ("a", Rejected "Image load error") /\
  "Image load error" <> "" /\
  (forall img, img ∈ images st' -> id img = "a" ->
     status img = Error /\ error img = Some "Image load error" /\
     compressed img = None) /\
  id <$> images st' = ["a"].
Proof.
  intros st st'.
  assert (Hwf : well_formed broken_platform [drop_a] init).
  { split; [|done]. cbn. constructor; [|constructor].
    unfold free. cbn. apply not_elem_of_nil. }
  assert (Hk : awaiting st !! 0 = Some ("a", Rejected "Image load error"))
    by (vm_compute; reflexivity).
  pose proof (compress_failure_recorded broken_platform [drop_a] 0 "a"
                "Image load error" Hwf Hk) as Hrec.
  cbv zeta in Hrec. fold st in Hrec. fold st' in Hrec.
  destruct Hrec as (_ & Hne & Hitems & _ & Hids & _).
  split_and!; [exact Hwf | exact Hk | exact Hne | exact Hitems |].
  rewrite Hids. vm_compute. reflexivity.
Defined.

Lemma compressor_configuration_witness :
  (call_a ∈ calls (run demo_platform [drop_a] init)) /\
  effective call_a = {| targetSizeKb := 800%float; maxWidth := 2560%float |}.
Proof.
  assert (Hin : call_a ∈ calls (run demo_platform [drop_a] init))
    by (vm_compute; apply list_elem_of_here).
  split; [exact Hin|].
  exact (proj2 (proj2 (compressor_configuration demo_platform [drop_a] call_a Hin))).
Defined.

(** Against C3 as stated: the one call made for a dropped file works with a
    maximum width of 2560, not 800, and a 3000 x 2000 image is therefore
    drawn 2560 wide. *)
Lemma compressor_configuration_counterexample :
  ~ (forall (env : Platform) (evs : list Event) (c : CompressCall),
       c ∈ calls (run env evs init) ->
       effective c = {| targetSizeKb := 800%float; maxWidth := 800%float |}) /\
  Canvas.drawn (imageProcessor.surface wide_image (maxWidth (effective call_a)))
    = Some (wide_image, 2560%float, (2560 / 3000 * 2000)%float).
Proof.
  split; [|reflexivity].
  intros Hclaim.
  assert (Hin : call_a ∈ calls (run demo_platform [drop_a] init))
    by (vm_compute; apply list_elem_of_here).
  specialize (Hclaim demo_platform [drop_a] call_a Hin).
  apply (f_equal (fun s => (maxWidth s <=? 1000)%float)) in Hclaim.
  vm_compute in Hclaim. discriminate.
Qed.

Lemma analysis_failure_sets_fallback_witness :
  let st := run demo_platform [drop_a] init in
  let st2 := step demo_platform (AnalysisSettles 0)
               (step demo_platform (CompressionSettles 0) st) in
  awaiting st !! 0 = Some ("a", Resolved one_byte) /\
  generateContent demo_platform one_byte = ApiThrows /\
  (forall img, img ∈ images st2 -> id img = "a" ->
     status img = Done /\ aiAnalysis img = Some analysis_fallback).
Proof.
  intros st st2.
  assert (Hk : awaiting st !! 0 = Some ("a", Resolved one_byte))
    by (vm_compute; reflexivity).
  assert (Hthrows : generateContent demo_platform one_byte = ApiThrows)
    by reflexivity.
  pose proof (analysis_failure_sets_fallback demo_platform st 0 "a" one_byte
                Hk Hthrows) as Hfb.
  cbv zeta in Hfb. destruct Hfb as (_ & _ & _ & Hitems).
  split_and!; [exact Hk | exact Hthrows | exact Hitems].
Defined.

(** Against C4 as stated: the analysis request throws, the item is [Done],
    and its [aiAnalysis] is set, to the sentence of the [catch]. *)
Lemma analysis_left_unset_counterexample :
  let st := run demo_platform
              [drop_a; CompressionSettles 0; AnalysisSettles 0] init in
  generateContent demo_platform one_byte = ApiThrows /\
  exists img,
    images st = [img] /\
    status img = Done /\
    compressed img = Some one_byte /\
    aiAnalysis img = Some "AI analysis could not be completed." /\
    aiAnalysis img <> None.
Proof.
  split; [reflexivity|].
  eexists. split_and!; [vm_compute; reflexivity | reflexivity | reflexivity | reflexivity |].
  discriminate.
Qed.

(** C9, at the failing input.  One file is dropped, its item is removed while
    the compression is in flight, and the compression then resolves: the
    object URL 1 created for the compressed blob is held by no item and is
    never revoked, whatever happens afterwards.  Removing the item after the
    compression has resolved revokes both URLs. *)
Theorem url_leaks_when_removed_in_flight :
  let st := run demo_platform
              [drop_a; RemoveImage "a"; CompressionSettles 0] init in
  images st = [] /\
  awaiting st = [] /\
  created (urls st) = [0; 1] /\
  revoked (urls st) = [0] /\
  (forall (env : Platform) (evs : list Event),
     1 ∉ revoked (urls (run env evs st))) /\
  revoked (urls (run demo_platform
                   [drop_a; CompressionSettles 0; RemoveImage "a"] init))
    = [0; 1].
Proof.
  intros st.
  assert (Himgs : images st = []) by (vm_compute; reflexivity).
  assert (Hurls : urls st = {| created := [0; 1]; revoked := [0] |})
    by (vm_compute; reflexivity).
  split_and!;
    [exact Himgs | vm_compute; reflexivity | by rewrite Hurls | by rewrite Hurls
    | | vm_compute; reflexivity].
  intros env evs.
  assert (Horph : orphaned 1 st).
  { unfold orphaned. rewrite Himgs, Hurls. cbn. split_and!.
    - lia.
    - intros [Heq|Hin]%elem_of_cons; [discriminate|]. by apply elem_of_nil in Hin.
    - intros img Himg. by apply elem_of_nil in Himg. }
  exact (proj1 (proj2 (run_orphaned env 1 evs st Horph))).
Qed.

End Scenarios.

(* ===================================================================== *)
(** * Part VII: further properties of the compressor                      *)
(* ===================================================================== *)

Section LoopExtras.
Import imageProcessor.

(** The run from the [k]-th quality, when it resolves: the blob is the
    encoder's answer at some quality [n >= k] of the schedule, the qualities
    [k .. n] were tried, all results before it were above the target, and it
    is itself at or below the target unless [n] is the last quality. *)
Lemma resolved_from encode target blob : forall d k fuel,
  k + d = 11 ->
  outcome (attemptCompression fuel encode target (nth_quality k))
    = Some (Resolved blob) ->
  exists n,
    k <= n <= 11 /\
    encode (nth_quality n) = Some blob /\
    attempts (attemptCompression fuel encode target (nth_quality k))
      = map nth_quality (seq k (S n - k)) /\
    (under_target target blob = true \/ n = 11) /\
    (forall j, k <= j < n ->
       exists bj, encode (nth_quality j) = Some bj /\
                  under_target target bj = false).
Proof.
  induction d as [|d IH]; intros k fuel Hk;
    (destruct fuel as [|fuel]; [discriminate|]);
    rewrite attemptCompression_unfold;
    (destruct (encode (nth_quality k)) as [b|] eqn:Hb; [|discriminate]).
  - assert (k = 11) as -> by lia.
    rewrite floor_reached, orb_true_r. cbn. intros [= ->].
    exists 11. split_and!; [lia | lia | assumption | reflexivity | by right |].
    intros j Hj. lia.
  - destruct (under_target target b) eqn:Hsize; cbn [orb].
    + cbn. intros [= ->].
      exists k. split_and!; [lia | lia | assumption | | by left |].
      * replace (S k - k) with 1 by lia. reflexivity.
      * intros j Hj. lia.
    + rewrite floor_not_reached by lia.
      cbn [attempt attempts outcome]. rewrite <- nth_quality_succ. intros Hres.
      destruct (IH (S k) fuel ltac:(lia) Hres) as (n & Hn & Hbn & Hatt & Hstop & Hbefore).
      exists n. split_and!; [lia | lia | assumption | | assumption |].
      * rewrite Hatt. replace (S n - k) with (S (S n - S k)) by lia. reflexivity.
      * intros j Hj. destruct (decide (j = k)) as [->|Hne].
        -- by exists b.
        -- apply Hbefore. lia.
Qed.

(** X1. Whatever the encoder does, a blob the loop resolves with is the
    encoder's answer at one of the twelve scheduled qualities, every earlier
    answer was a blob whose size in KB, [blob.size / 1024], was above the
    target, and the blob itself is at or below the target unless it is the
    answer at the last quality: a result above the target is only ever
    returned after all twelve attempts. *)
Theorem resolved_blob_provenance
    (encode : float -> option Blob.t) (target : float) (fuel : nat)
    (blob : Blob.t) :
  outcome (attemptCompression fuel encode target quality) = Some (Resolved blob) ->
  (exists n,
     n <= 11 /\
     encode (nth_quality n) = Some blob /\
     attempts (attemptCompression fuel encode target quality)
       = map nth_quality (seq 0 (S n)) /\
     ((number_of_Z (Z.of_nat (length (Blob.bytes blob))) / 1024 <=? target)%float
        = true \/ n = 11) /\
     (forall j, j < n ->
        exists bj, encode (nth_quality j) = Some bj /\
          (number_of_Z (Z.of_nat (length (Blob.bytes bj))) / 1024 <=? target)%float
            = false)) /\
  ((number_of_Z (Z.of_nat (length (Blob.bytes blob))) / 1024 <=? target)%float
     = false ->
   attempts (attemptCompression fuel encode target quality) = schedule).
Proof.
  intros Hres.
  destruct (resolved_from encode target blob 11 0 fuel eq_refl Hres)
    as (n & Hn & Hb & Hatt & Hstop & Hbefore).
  rewrite Nat.sub_0_r in Hatt. split.
  - exists n. split_and!; [lia | exact Hb | exact Hatt | exact Hstop |].
    intros j Hj. destruct (Hbefore j) as (bj & Hbj & Hover); [lia|].
    exists bj. split; [exact Hbj | exact Hover].
  - intros Hover. change (under_target target blob = false) in Hover.
    destruct Hstop as [Hunder| ->]; [congruence|]. exact Hatt.
Qed.

Lemma resolved_blob_provenance_witness :
  outcome (attemptCompression 12 shrinking_encoder 1%float quality)
    = Some (Resolved (blob_of_size 512)) /\
  attempts (attemptCompression 12 shrinking_encoder 1%float quality)
    = map nth_quality (seq 0 7) /\
  (number_of_Z 2048 / 1024)%float = 2%float /\
  (number_of_Z 512 / 1024)%float = 0.5%float /\
  outcome (attemptCompression 12 stubborn_encoder 0%float quality)
    = Some (Resolved one_byte) /\
  (number_of_Z (Z.of_nat (length (Blob.bytes one_byte))) / 1024 <=? 0)%float = false /\
  attempts (attemptCompression 12 stubborn_encoder 0%float quality) = schedule.
Proof.
  assert (Hshrunk : outcome (attemptCompression 12 shrinking_encoder 1%float quality)
                    = Some (Resolved (blob_of_size 512))) by (vm_compute; reflexivity).
  assert (Hres : outcome (attemptCompression 12 stubborn_encoder 0%float quality)
                 = Some (Resolved one_byte)) by (vm_compute; reflexivity).
  assert (Hover : (number_of_Z (Z.of_nat (length (Blob.bytes one_byte))) / 1024
                     <=? 0)%float = false) by (vm_compute; reflexivity).
  split; [exact Hshrunk|]. split.
  - destruct (resolved_blob_provenance shrinking_encoder 1%float 12 _ Hshrunk)
      as ((n & Hn & Hb & Hatt & Hstop & Hbefore) & _).
    destruct (shrinking_stop_index n _ Hn Hb Hstop Hbefore) as [-> _]. exact Hatt.
  - split; [vm_compute; reflexivity|]. split; [vm_compute; reflexivity|].
    split; [exact Hres|]. split; [exact Hover|].
    exact (proj2 (resolved_blob_provenance stubborn_encoder 0%float 12 one_byte Hres)
             Hover).
Defined.

(** X2. From any starting quality and with any budget, the loop rejects
    exactly when the encoder handed a null blob to the callback of the last
    attempt made, and the message is then "Compression failed". *)
Theorem rejects_iff_null_blob
    (encode : float -> option Blob.t) (target : float) (message : string) :
  forall (fuel : nat) (q : float),
  outcome (attemptCompression fuel encode target q) = Some (Rejected message) <->
  message = "Compression failed" /\
  exists q', last (attempts (attemptCompression fuel encode target q)) = Some q' /\
             encode q' = None.
Proof.
  induction fuel as [|fuel IH]; intros q.
  - cbn. split; [discriminate|]. intros (_ & q' & Hlast & _). discriminate.
  - rewrite attemptCompression_unfold.
    destruct (encode q) as [b|] eqn:Hb.
    + destruct (under_target target b || at_floor q).
      * cbn. split; [discriminate|].
        intros (_ & q' & [= <-] & Hnull). congruence.
      * cbn [attempt attempts outcome]. rewrite IH.
        destruct (attempts (attemptCompression fuel encode target (q - step)%float))
          as [|q1 qs] eqn:Hatt.
        -- cbn. split.
           ++ intros (_ & q' & Hlast & _). discriminate.
           ++ intros (_ & q' & [= <-] & Hnull). congruence.
        -- rewrite last_cons_cons. reflexivity.
    + cbn. split.
      * intros [= <-]. split; [reflexivity|]. by exists q.
      * intros [-> _]. reflexivity.
Qed.

Lemma rejects_iff_null_blob_witness :
  outcome (attemptCompression 12 null_encoder 800%float quality)
    = Some (Rejected "Compression failed") /\
  last (attempts (attemptCompression 12 null_encoder 800%float quality))
    = Some quality.
Proof.
  assert (Hnull : "Compression failed" = "Compression failed" /\
            exists q', last (attempts (attemptCompression 12 null_encoder
                                         800%float quality)) = Some q' /\
                       null_encoder q' = None).
  { split; [reflexivity|]. exists quality. split; reflexivity. }
  split; [|reflexivity].
  exact (proj2 (rejects_iff_null_blob null_encoder 800%float
                  "Compression failed" 12 quality) Hnull).
Defined.

Lemma descending_take l : forall n, descending l = true -> descending (take n l) = true.
Proof.
  induction l as [|a [|b l] IH]; intros [|n] Hl; try reflexivity.
  - by destruct n.
  - cbn [descending] in Hl. apply andb_prop in Hl as [Hab Hl].
    specialize (IH n Hl). destruct n as [|n]; [reflexivity|].
    cbn [take descending] in *. by rewrite Hab, IH.
Qed.

(** X3. The qualities handed to the encoder, for every encoder, target and
    budget: each lies in the range (0, 1] in which [canvas.toBlob] honours
    its quality argument, and each retry uses a strictly lower quality than
    the attempt before it. *)
Theorem attempts_descend_in_range
    (encode : float -> option Blob.t) (target : float) (fuel : nat) :
  forallb in_range (attempts (attemptCompression fuel encode target quality)) = true /\
  descending (attempts (attemptCompression fuel encode target quality)) = true.
Proof.
  destruct (attempts_prefix encode target fuel) as (n & _ & ->). split.
  - assert (Hall : forallb in_range schedule = true) by (vm_compute; reflexivity).
    apply (proj2 (List.forallb_forall _ _)). intros q Hq.
    apply (proj1 (List.forallb_forall _ _) Hall).
    apply list_elem_of_In, (subseteq_take n), list_elem_of_In, Hq.
  - apply descending_take. vm_compute. reflexivity.
Qed.

End LoopExtras.

Section ResizeExtras.
Import imageProcessor.

Lemma SFcompare_refl_not_lt x : SFcompare x x <> Some Lt.
Proof.
  pose proof (SFcompare_swap x x) as Hswap.
  destruct (SFcompare x x) as [[]|]; cbn in Hswap; congruence.
Qed.

Lemma ltb_irrefl (x : float) : (x <? x)%float = false.
Proof.
  rewrite ltb_spec. unfold SFltb.
  pose proof (SFcompare_refl_not_lt (Prim2SF x)) as Hne.
  by destruct (SFcompare (Prim2SF x) (Prim2SF x)) as [[]|].
Qed.

Lemma ltb_leb (x y : float) : (x <? y)%float = true -> (x <=? y)%float = true.
Proof.
  rewrite ltb_spec, leb_spec. unfold SFltb, SFleb.
  by destruct (SFcompare (Prim2SF x) (Prim2SF y)) as [[]|].
Qed.

Lemma SFcompare_None x y :
  SFcompare x y = None -> x = S754_nan \/ y = S754_nan.
Proof.
  destruct x as [sx|sx| |sx mx ex], y as [sy|sy| |sy my ey]; cbn;
    try discriminate; auto.
Qed.

Lemma is_number_not_nan (x : float) : is_number x = true -> Prim2SF x <> S754_nan.
Proof.
  unfold is_number. rewrite FloatAxioms.eqb_spec. unfold SFeqb. intros Heq Hnan.
  rewrite Hnan in Heq. discriminate.
Qed.

Lemma leb_refl (x : float) : is_number x = true -> (x <=? x)%float = true.
Proof.
  unfold is_number. rewrite FloatAxioms.eqb_spec, leb_spec. unfold SFeqb, SFleb.
  by destruct (SFcompare (Prim2SF x) (Prim2SF x)) as [[]|].
Qed.

Lemma not_ltb_leb (x y : float) :
  is_number x = true -> is_number y = true ->
  (x <? y)%float = false -> (y <=? x)%float = true.
Proof.
  intros Hx%is_number_not_nan Hy%is_number_not_nan.
  rewrite ltb_spec, leb_spec. unfold SFltb, SFleb.
  rewrite (SFcompare_swap (Prim2SF x) (Prim2SF y)).
  destruct (SFcompare (Prim2SF x) (Prim2SF y)) as [[]|] eqn:Hc; cbn; try done.
  apply SFcompare_None in Hc as [?|?]; contradiction.
Qed.

(** X4. When neither the intrinsic width nor [maxWidth] is NaN, the width
    the image is drawn at exceeds neither of them: an image is never
    upscaled and never drawn wider than [maxWidth]. *)
Theorem resize_width_bounded (img : Image.t) (maxWidth : float) :
  is_number (Image.width img) = true ->
  is_number maxWidth = true ->
  ((resize img maxWidth).1 <=? Image.width img)%float = true /\
  ((resize img maxWidth).1 <=? maxWidth)%float = true.
Proof.
  intros Hw Hm. unfold resize.
  destruct (maxWidth <? Image.width img)%float eqn:Hgt; cbn [fst].
  - split; [by apply ltb_leb | by apply leb_refl].
  - split; [by apply leb_refl | by apply not_ltb_leb].
Qed.

Lemma resize_width_bounded_witness :
  is_number (Image.width wide_image) = true /\
  is_number 800%float = true /\
  ((resize wide_image 800%float).1 <=? 3000)%float = true /\
  ((resize wide_image 800%float).1 <=? 800)%float = true.
Proof.
  assert (Hw : is_number (Image.width wide_image) = true) by reflexivity.
  assert (Hm : is_number 800%float = true) by reflexivity.
  split; [exact Hw|]. split; [exact Hm|].
  exact (resize_width_bounded wide_image 800%float Hw Hm).
Defined.

(** X5. Resizing is idempotent for every pair of dimensions and every
    [maxWidth], NaN and infinities included: an image that already has the
    dimensions the resize step produced is left as it is. *)
Theorem resize_idempotent (img : Image.t) (maxWidth : float) :
  resize {| Image.width := (resize img maxWidth).1;
            Image.height := (resize img maxWidth).2 |} maxWidth
  = resize img maxWidth.
Proof.
  destruct (resize img maxWidth) as [w h] eqn:Hr. cbn [fst snd].
  unfold resize. cbn [Image.width Image.height].
  destruct (maxWidth <? w)%float eqn:Hagain; [|reflexivity].
  exfalso. revert Hr Hagain. unfold resize.
  destruct (maxWidth <? Image.width img)%float eqn:Hgt; intros [= <- <-].
  - by rewrite ltb_irrefl.
  - by rewrite Hgt.
Qed.

End ResizeExtras.

Section CompressorExtras.
Import imageProcessor.
Context (env : Platform).

(** X6. [compressImage] always settles.  When it resolves, the file was
    read and decoded, and the blob is what the encoder returned, at one of
    the twelve scheduled qualities, for the canvas the resized image was
    drawn on; when it rejects, the message is one of its four messages.
    A budget larger than the twelve calls changes nothing. *)
Theorem compressImage_settles_classified
    (file : File.t) (target maxW : option float) (fuel : nat) :
  ((exists blob dataUrl img n,
      compressImage env file target maxW = Some (Resolved blob) /\
      readAsDataURL env file = Some dataUrl /\
      loadImage env dataUrl = Some img /\
      n <= 11 /\
      toBlob env (surface img (default default_maxWidth maxW)) (nth_quality n)
        = Some blob) \/
   (exists message,
      compressImage env file target maxW = Some (Rejected message) /\
      message ∈ compress_errors)) /\
  outcome (compressImage_run env (loop_budget + fuel) file target maxW)
    = compressImage env file target maxW.
Proof.
  split.
  - destruct (compressImage env file target maxW) as [[blob|message]|] eqn:Hc.
    + left. revert Hc. unfold compressImage, compressImage_run.
      destruct (readAsDataURL env file) as [dataUrl|] eqn:Hread; [|discriminate].
      destruct (loadImage env dataUrl) as [img|] eqn:Hload; [|discriminate].
      destruct (resize img _) as [w h] eqn:Hr.
      destruct (negb _); [discriminate|]. intros Hres.
      destruct (resolved_from _ _ _ 11 0 _ eq_refl Hres) as (n & Hn & Hb & _).
      exists blob, dataUrl, img, n.
      split_and!; [reflexivity | reflexivity | exact Hload | lia |].
      unfold surface. rewrite Hr. exact Hb.
    + right. exists message. split; [reflexivity|]. by eapply compressImage_rejects.
    + by apply compressImage_settles in Hc.
  - unfold compressImage. rewrite compressImage_run_budget; [reflexivity | lia].
Qed.

End CompressorExtras.

Section AnalyzerExtras.
Context (env : Platform).

(** X7. [analyzeImage] never resolves with an empty text: it returns the
    text of the response when there is a non-empty one, "No analysis
    available." when the response has no text or an empty one, and the
    sentence of its [catch] when the request throws. *)
Theorem analyzeImage_never_empty (blob : Blob.t) :
  geminiService.analyzeImage env blob <> "" /\
  (forall text, generateContent env blob = ApiResponse (Some text) ->
     geminiService.analyzeImage env blob =
       if decide (text = "") then "No analysis available." else text) /\
  (generateContent env blob = ApiResponse None ->
     geminiService.analyzeImage env blob = "No analysis available.") /\
  (generateContent env blob = ApiThrows ->
     geminiService.analyzeImage env blob = analysis_fallback).
Proof.
  unfold geminiService.analyzeImage.
  destruct (generateContent env blob) as [[text|]|]; split_and!;
    try done; try (intros ? [= <-]; reflexivity).
  by destruct (decide (text = "")).
Qed.

End AnalyzerExtras.

Lemma analyzeImage_never_empty_witness :
  generateContent chatty_platform one_byte = ApiResponse (Some "A sharp photo.") /\
  geminiService.analyzeImage chatty_platform one_byte = "A sharp photo.".
Proof.
  assert (Hresp : generateContent chatty_platform one_byte
                  = ApiResponse (Some "A sharp photo.")) by reflexivity.
  split; [exact Hresp|].
  exact (proj1 (proj2 (analyzeImage_never_empty chatty_platform one_byte)) _ Hresp).
Defined.

(* ===================================================================== *)
(** * Part VIII: further properties of the orchestrator                   *)
(* ===================================================================== *)

Section ItemFrames.
Import types App.
Context (env : Platform).

Lemma fmap_update_item {B} (g : ImageFile -> B) i f l :
  (forall img, g (f img) = g img) -> g <$> update_item i f l = g <$> l.
Proof.
  intros Hg. unfold update_item. rewrite <- list_fmap_compose.
  apply list_fmap_ext. intros ? img _. cbn.
  destruct (decide (id img = i)); [apply Hg | reflexivity].
Qed.

Lemma Forall2_update_item (R : ImageFile -> ImageFile -> Prop) i f l :
  (forall img, R img img) -> (forall img, R img (f img)) ->
  Forall2 R l (update_item i f l).
Proof.
  intros Hrefl Hf. unfold update_item. apply Forall2_fmap_r, Forall_Forall2_diag.
  apply Forall_forall. intros img _. cbn. destruct (decide (id img = i)); auto.
Qed.

(** What [processOne] does to the list of items and to the URL registry. *)
Lemma processOne_images image st :
  (images (processOne env image st) = images st \/
   images (processOne env image st)
     = update_item (id image) mark_compressing (images st)) /\
  urls (processOne env image st) = urls st /\
  analyses (processOne env image st) = analyses st.
Proof.
  destruct (decide (id image ∈ processingQueue st)) as [Hin|Hnotin].
  - rewrite processOne_guarded by assumption. by split_and!; [left| |].
  - destruct (processOne_started env image st Hnotin) as (settled & _ & ->).
    by split_and!; [right| |].
Qed.

Lemma foldl_processOne_frame {B} (g : ImageFile -> B) imgs :
  (forall img, g (mark_compressing img) = g img) ->
  forall st,
  g <$> images (foldl (fun st img => processOne env img st) st imgs)
    = g <$> images st /\
  urls (foldl (fun st img => processOne env img st) st imgs) = urls st /\
  analyses (foldl (fun st img => processOne env img st) st imgs) = analyses st.
Proof.
  intros Hg. induction imgs as [|img imgs IH]; intros st; [done|].
  cbn [foldl]. destruct (IH (processOne env img st)) as (-> & -> & ->).
  destruct (processOne_images img st) as ([-> | ->] & -> & ->); [done|].
  by rewrite fmap_update_item.
Qed.

(** X8. A request to process an item and the settling of a compression or
    of an analysis keep the collection in place: the same items in the same
    order, each with its id, file, original URL and original size, and an
    [aiAnalysis] that was set stays set. *)
Theorem updates_keep_items (ev : Event) (st : State) :
  match ev with
  | ProcessOne _ | CompressionSettles _ | AnalysisSettles _ =>
      Forall2 (fun a b => core a = core b /\
                          (is_Some (aiAnalysis a) -> is_Some (aiAnalysis b)))
        (images st) (images (step env ev st))
  | _ => True
  end.
Proof.
  assert (Hrefl : forall img : ImageFile,
            core img = core img /\ (is_Some (aiAnalysis img) -> is_Some (aiAnalysis img)))
    by done.
  destruct ev as [files|i|image|k|k]; cbn [step]; [exact I | exact I | | |].
  - destruct (processOne_images image st) as ([-> | ->] & _).
    + by apply Forall_Forall2_diag, Forall_forall.
    + by apply Forall2_update_item.
  - destruct (awaiting st !! k) as [[i settled]|];
      [|by apply Forall_Forall2_diag, Forall_forall].
    rewrite processOne_resume_unfold.
    destruct settled; cbn [images set_awaiting]; by apply Forall2_update_item.
  - destruct (analyses st !! k) as [[i text]|];
      [|by apply Forall_Forall2_diag, Forall_forall].
    cbn [images analysis_then setImages set_analyses].
    apply Forall2_update_item; [done|]. intros img. split; [done|]. by eexists.
Qed.

(** The items [handleFiles] builds, field by field. *)
Lemma newImages_spec files : forall reg,
  (newImages files reg).1 =
    imap (fun k p =>
            {| id := p.1; original := p.2; compressed := None;
               originalUrl := length (created reg) + k;
               compressedUrl := None; status := Pending;
               originalSize := File.size p.2; compressedSize := None;
               error := None; aiAnalysis := None |}) files /\
  created (newImages files reg).2
    = created reg ++ seq (length (created reg)) (length files) /\
  revoked (newImages files reg).2 = revoked reg.
Proof.
  induction files as [|[rnd file] files IH]; intros reg.
  - cbn. by rewrite app_nil_r.
  - rewrite newImages_cons. cbn zeta. cbn [fst snd].
    destruct (IH {| created := created reg ++ [length (created reg)];
                    revoked := revoked reg |}) as (-> & -> & ->).
    cbn [created revoked imap length seq]. rewrite length_app. cbn [length].
    split_and!; [|by rewrite <- app_assoc, Nat.add_1_r | done].
    rewrite Nat.add_0_r. f_equal. apply imap_ext. intros k [rnd' file'] _. cbn.
    rewrite ?length_app. cbn [length]. f_equal. lia.
Qed.

(** X9. [handleFiles(null)] does nothing.  Dropping files appends one item
    per file, in order, after the items already there, which keep their
    place; the k-th new item carries the id drawn for it, its file, the
    file's size and a fresh object URL; exactly one URL per file is created,
    none is revoked, and no analysis is scheduled. *)
Theorem handleFiles_appends (files : list (string * File.t)) (st : State) :
  handleFiles env None st = st /\
  core <$> images (handleFiles env (Some files) st) =
    (core <$> images st) ++
    imap (fun k p => (p.1, p.2, length (created (urls st)) + k, File.size p.2))
      files /\
  created (urls (handleFiles env (Some files) st)) =
    created (urls st) ++ seq (length (created (urls st))) (length files) /\
  revoked (urls (handleFiles env (Some files) st)) = revoked (urls st) /\
  analyses (handleFiles env (Some files) st) = analyses st.
Proof.
  split; [reflexivity|]. unfold handleFiles.
  destruct (newImages_spec files (urls st)) as (Himgs & Hcreated & Hrevoked).
  destruct (newImages files (urls st)) as [imgs reg]. cbn [fst snd] in *.
  destruct (foldl_processOne_frame core imgs ltac:(done)
              (setImages (fun prev => prev ++ imgs) (set_urls reg st)))
    as (-> & Hurls & ->).
  rewrite Hurls. cbn [images urls analyses setImages set_urls].
  split_and!; [|exact Hcreated | exact Hrevoked | reflexivity].
  rewrite fmap_app. f_equal. rewrite Himgs, fmap_imap. reflexivity.
Qed.

End ItemFrames.

Section Removal.
Import types App.
Context (env : Platform).

Lemma filter_all {A} (P : A -> Prop) `{!forall x, Decision (P x)} (l : list A) :
  Forall P l -> filter P l = l.
Proof.
  induction 1 as [|x l Hx _ IH]; [reflexivity|].
  by rewrite filter_cons_True, IH.
Qed.

Lemma find_absent i (l : list ImageFile) :
  i ∉ id <$> l -> find (fun img => bool_decide (id img = i)) l = None.
Proof.
  induction l as [|img l IH]; [reflexivity|]. cbn [fmap list_fmap find].
  intros [Hne Hl]%not_elem_of_cons.
  rewrite bool_decide_eq_false_2 by congruence. by apply IH.
Qed.

(** Removing an id no item carries changes nothing at all. *)
Lemma removeImage_absent i st :
  i ∉ id <$> images st -> removeImage i st = st.
Proof.
  intros Habsent. unfold removeImage. rewrite find_absent by assumption.
  destruct st as [imgs q reg aw an cs]. unfold setImages, set_urls. cbn in *.
  f_equal. apply filter_all, Forall_forall. intros img Himg Heq.
  apply Habsent. rewrite <- Heq. by apply list_elem_of_fmap_2.
Qed.

Lemma removeImage_gone i st : i ∉ id <$> images (removeImage i st).
Proof.
  cbn [removeImage images setImages].
  intros (img & -> & [Hne _]%list_elem_of_filter)%list_elem_of_fmap. by apply Hne.
Qed.

(** X10. [removeImage] removes every item carrying the id and nothing else,
    and only revokes URLs of an item carrying the id; it leaves the guard
    set, the runs in flight, the pending analyses and the registry's created
    URLs as they are; removing an id no item carries is a no-op, so removing
    twice is the same as removing once. *)
Theorem removeImage_effect (i : string) (st : State) :
  (i ∉ id <$> images (removeImage i st)) /\
  (forall img, id img <> i ->
     img ∈ images (removeImage i st) <-> img ∈ images st) /\
  (exists l,
     revoked (urls (removeImage i st)) = revoked (urls st) ++ l /\
     forall u, u ∈ l ->
       exists img, img ∈ images st /\ id img = i /\ u ∈ urls_of img) /\
  created (urls (removeImage i st)) = created (urls st) /\
  processingQueue (removeImage i st) = processingQueue st /\
  awaiting (removeImage i st) = awaiting st /\
  analyses (removeImage i st) = analyses st /\
  ((i ∉ id <$> images st) -> removeImage i st = st) /\
  removeImage i (removeImage i st) = removeImage i st.
Proof.
  split_and!; try reflexivity.
  - apply removeImage_gone.
  - intros img Hne. cbn [removeImage images setImages].
    rewrite list_elem_of_filter. tauto.
  - unfold removeImage. cbn [urls setImages set_urls].
    destruct (find _ (images st)) as [r|] eqn:Hfind.
    + apply find_some in Hfind as [Hr%list_elem_of_In Hid%bool_decide_eq_true_1].
      exists (urls_of r). split.
      * unfold urls_of. destruct (compressedUrl r); cbn; by rewrite <- ?app_assoc.
      * intros u Hu. by exists r.
    + exists []. split; [by rewrite app_nil_r|]. intros u Hu. by apply elem_of_nil in Hu.
  - unfold removeImage. cbn [urls setImages set_urls].
    destruct (find _ (images st)) as [r|]; [|reflexivity].
    by destruct (compressedUrl r).
  - apply removeImage_absent.
  - apply removeImage_absent, removeImage_gone.
Qed.

Lemma removeImage_effect_witness :
  ("b" ∉ id <$> images (run demo_platform [drop_a] init)) /\
  removeImage "b" (run demo_platform [drop_a] init)
    = run demo_platform [drop_a] init.
Proof.
  assert (Habsent : "b" ∉ id <$> images (run demo_platform [drop_a] init)).
  { assert (Hids : id <$> images (run demo_platform [drop_a] init) = ["a"])
      by (vm_compute; reflexivity).
    rewrite Hids. intros [Heq|Hin]%elem_of_cons; [discriminate|].
    by apply elem_of_nil in Hin. }
  split; [exact Habsent|].
  destruct (removeImage_effect "b" (run demo_platform [drop_a] init))
    as (_ & _ & _ & _ & _ & _ & _ & Hnoop & _).
  exact (Hnoop Habsent).
Defined.

Lemma handleFiles_ids files st :
  id <$> images (handleFiles env (Some files) st) = (id <$> images st) ++ files.*1.
Proof.
  unfold handleFiles. pose proof (newImages_ids files (urls st)) as Hids.
  destruct (newImages files (urls st)) as [imgs reg]. cbn [fst] in Hids.
  destruct (foldl_processOne_frame env id imgs ltac:(done)
              (setImages (fun prev => prev ++ imgs) (set_urls reg st)))
    as (-> & _).
  cbn [images setImages set_urls]. by rewrite fmap_app, Hids.
Qed.

Lemma step_ids_absent i ev st :
  leaves_out i ev ->
  i ∉ id <$> images st -> i ∉ id <$> images (step env ev st).
Proof.
  intros Hev Habsent. destruct ev as [[files|]|j|image|k|k]; cbn [step].
  - rewrite handleFiles_ids, elem_of_app. intros [?|?]; [by apply Habsent | by apply Hev].
  - exact Habsent.
  - intros (img & -> & [_ Himg]%list_elem_of_filter)%list_elem_of_fmap.
    apply Habsent. by apply list_elem_of_fmap_2.
  - destruct (processOne_images env image st) as ([-> | ->] & _); [done|].
    by rewrite fmap_update_item.
  - destruct (awaiting st !! k) as [[j settled]|]; [|done].
    rewrite processOne_resume_unfold.
    destruct settled; cbn [images set_awaiting]; by rewrite fmap_update_item.
  - destruct (analyses st !! k) as [[j text]|]; [|done].
    cbn [images analysis_then setImages set_analyses]. by rewrite fmap_update_item.
Qed.

(** X11. A removed item does not come back: after [removeImage], whatever
    settles later (the compression or the analysis that was in flight for
    it included) and whatever else is dropped, removed or requested, no item
    carries the id again unless new files are dropped under that very id. *)
Theorem removed_item_stays_removed (i : string) (st : State) (evs : list Event) :
  Forall (leaves_out i) evs ->
  i ∉ id <$> images (run env evs (removeImage i st)).
Proof.
  intros Hevs.
  assert (Hgen : forall st', i ∉ id <$> images st' -> i ∉ id <$> images (run env evs st')).
  { induction Hevs as [|ev evs Hev _ IH]; intros st' Hst'; [exact Hst'|].
    apply IH. by apply step_ids_absent. }
  apply Hgen, removeImage_gone.
Qed.

End Removal.

Section RemovalScenario.
Import types App.

Lemma removed_item_stays_removed_witness :
  Forall (leaves_out "a") [CompressionSettles 0; AnalysisSettles 0] /\
  ("a" ∉ id <$> images (run demo_platform [CompressionSettles 0; AnalysisSettles 0]
                          (removeImage "a" (run demo_platform [drop_a] init)))).
Proof.
  assert (Hevs : Forall (leaves_out "a") [CompressionSettles 0; AnalysisSettles 0])
    by (repeat constructor).
  split; [exact Hevs|].
  exact (removed_item_stays_removed demo_platform "a"
           (run demo_platform [drop_a] init) _ Hevs).
Defined.

End RemovalScenario.

Section Batches.
Import types App.
Context (env : Platform).

Lemma newImages_files files : forall reg,
  (fun im => (id im, original im)) <$> (newImages files reg).1 = files.
Proof.
  induction files as [|[rnd file] files IH]; intros reg; [reflexivity|].
  rewrite newImages_cons. cbn zeta. cbn [fst fmap list_fmap]. f_equal. apply IH.
Qed.

Lemma processOne_keeps_compressing i image st :
  (forall img, img ∈ images st -> id img = i -> status img = Compressing) ->
  forall img, img ∈ images (processOne env image st) -> id img = i ->
    status img = Compressing.
Proof.
  intros Hst img'.
  destruct (processOne_images env image st) as ([-> | ->] & _); [apply Hst|].
  intros (img & Himg & ->)%elem_of_update_item.
  destruct (decide (id img = id image)); [done | by apply Hst].
Qed.

Lemma foldl_processOne_keeps_compressing i imgs : forall st,
  (forall img, img ∈ images st -> id img = i -> status img = Compressing) ->
  forall img, img ∈ images (foldl (fun st img => processOne env img st) st imgs) ->
    id img = i -> status img = Compressing.
Proof.
  induction imgs as [|im imgs IH]; intros st Hst; [exact Hst|].
  cbn [foldl]. apply IH. by apply processOne_keeps_compressing.
Qed.

(** A batch of requests for distinct ids, none of them in the guard set:
    every request starts a run. *)
Lemma foldl_processOne_starts imgs : forall st,
  NoDup (id <$> imgs) ->
  (forall i, i ∈ id <$> imgs -> i ∉ processingQueue st) ->
  let st' := foldl (fun st img => processOne env img st) st imgs in
  (awaiting st').*1 = (awaiting st).*1 ++ (id <$> imgs) /\
  calls st' = calls st ++ ((fun im => call_for (id im, original im)) <$> imgs) /\
  processingQueue st' = list_to_set (id <$> imgs) ∪ processingQueue st /\
  (forall img, img ∈ images st' -> id img ∈ id <$> imgs -> status img = Compressing).
Proof.
  induction imgs as [|im imgs IH]; intros st Hnd Hq st'.
  - cbn in *. rewrite !app_nil_r, union_empty_l_L. split_and!; [done | done | done |].
    intros img _ Hin. by apply elem_of_nil in Hin.
  - cbn [fmap list_fmap] in Hnd, Hq. apply NoDup_cons in Hnd as [Him Hnd].
    assert (Hstart : id im ∉ processingQueue st) by (apply Hq; left).
    destruct (processOne_started env im st Hstart) as (settled & _ & Hone).
    assert (Hq' : forall i, i ∈ id <$> imgs -> i ∉ processingQueue (processOne env im st)).
    { intros i Hi. rewrite Hone. cbn [processingQueue].
      rewrite elem_of_union, elem_of_singleton. intros [->|Hin]; [done|].
      by apply (Hq i); [right|]. }
    assert (Hnow : forall img, img ∈ images (processOne env im st) ->
              id img = id im -> status img = Compressing).
    { intros img'. rewrite Hone. cbn [images].
      intros (img0 & _ & ->)%elem_of_update_item Hid.
      by destruct (decide (id img0 = id im)). }
    destruct (IH (processOne env im st) Hnd Hq') as (Haw & Hcalls & Hqueue & Hstat).
    unfold st'. cbn [foldl fmap list_fmap]. split_and!.
    + rewrite Haw, Hone. cbn [awaiting]. rewrite fmap_app. cbn [fmap list_fmap fst].
      by rewrite <- app_assoc.
    + rewrite Hcalls, Hone. cbn [calls]. by rewrite <- app_assoc.
    + rewrite Hqueue, Hone. cbn [processingQueue].
      rewrite list_to_set_cons, (comm_L (∪) {[id im]} (list_to_set (id <$> imgs))).
      by rewrite <- (assoc_L (∪)).
    + intros img Himg [Heq|Hin]%elem_of_cons; [|by apply Hstat].
      by apply (foldl_processOne_keeps_compressing (id im) imgs (processOne env im st)).
Qed.

(** X12. When the ids drawn for a batch of dropped files are distinct and
    none of them is held by the guard set, [handleFiles] starts exactly one
    compression run per file, in the order of the files: one
    [compressImage(file, 800)] call and one suspended run each, every id
    enters the guard set, and every item carrying one of the ids is left
    [Compressing]. *)
Theorem handleFiles_starts_each (files : list (string * File.t)) (st : State) :
  NoDup (files.*1) ->
  (forall i, i ∈ files.*1 -> i ∉ processingQueue st) ->
  let st' := handleFiles env (Some files) st in
  (awaiting st').*1 = (awaiting st).*1 ++ files.*1 /\
  calls st' = calls st ++ (call_for <$> files) /\
  processingQueue st' = list_to_set (files.*1) ∪ processingQueue st /\
  (forall img, img ∈ images st' -> id img ∈ files.*1 -> status img = Compressing).
Proof.
  intros Hnd Hq st'. unfold st', handleFiles.
  pose proof (newImages_ids files (urls st)) as Hids.
  pose proof (newImages_files files (urls st)) as Hfiles.
  destruct (newImages files (urls st)) as [imgs reg]. cbn [fst] in Hids, Hfiles.
  rewrite <- Hids in Hnd, Hq |- *.
  pose proof (foldl_processOne_starts imgs
                (setImages (fun prev => prev ++ imgs) (set_urls reg st)) Hnd Hq)
    as (Haw & Hcalls & Hqueue & Hstat).
  split_and!; [exact Haw | | exact Hqueue | exact Hstat].
  rewrite Hcalls. cbn [calls setImages set_urls]. f_equal.
  rewrite <- Hfiles at 1. by rewrite <- list_fmap_compose.
Qed.

End Batches.

Section BatchScenario.
Import types App.

Lemma handleFiles_starts_each_witness :
  NoDup ([("a", demo_file); ("b", demo_file)].*1) /\
  (forall i, i ∈ [("a", demo_file); ("b", demo_file)].*1 -> i ∉ processingQueue init) /\
  (awaiting (handleFiles demo_platform
               (Some [("a", demo_file); ("b", demo_file)]) init)).*1 = ["a"; "b"] /\
  length (calls (handleFiles demo_platform
                   (Some [("a", demo_file); ("b", demo_file)]) init)) = 2.
Proof.
  assert (Hnd : NoDup ([("a", demo_file); ("b", demo_file)].*1)).
  { cbn. apply NoDup_cons. split; [|apply NoDup_singleton].
    intros Hin%list_elem_of_singleton. discriminate. }
  assert (Hq : forall i, i ∈ [("a", demo_file); ("b", demo_file)].*1 ->
            i ∉ processingQueue init).
  { intros i _. cbn. apply not_elem_of_empty. }
  split; [exact Hnd|]. split; [exact Hq|].
  destruct (handleFiles_starts_each demo_platform _ init Hnd Hq) as (Haw & Hcalls & _).
  split; [exact Haw|]. rewrite Hcalls. reflexivity.
Defined.

End BatchScenario.

Section LiveUrls.
Import types App.
Context (env : Platform).

Lemma elem_of_urls_of u img :
  u ∈ urls_of img <-> u = originalUrl img \/ compressedUrl img = Some u.
Proof.
  unfold urls_of. rewrite elem_of_cons.
  destruct (compressedUrl img) as [c|]; cbn.
  - rewrite list_elem_of_singleton. split; intros [?|?]; subst; auto.
    right. congruence.
  - split; intros [?|?]; auto; [by apply elem_of_nil in H | discriminate].
Qed.

(** A state update that maps over the items without touching ids or URLs,
    and leaves the registry alone, keeps [url_inv]. *)
Lemma url_inv_fmap (g : ImageFile -> ImageFile) st st' :
  urls st' = urls st ->
  images st' = g <$> images st ->
  (forall img, id (g img) = id img /\ originalUrl (g img) = originalUrl img /\
               compressedUrl (g img) = compressedUrl img) ->
  url_inv st -> url_inv st'.
Proof.
  intros Hurls Himgs Hg (HA & HC & HD & HE1 & HE2).
  assert (Hu : forall img, urls_of (g img) = urls_of img).
  { intros img. unfold urls_of. destruct (Hg img) as (_ & -> & ->). done. }
  unfold url_inv. rewrite Hurls, Himgs. split_and!; [| | |exact HE1 | exact HE2].
  - intros img' u (img & -> & Himg)%list_elem_of_fmap. rewrite Hu. by apply HA.
  - intros img1' img2' u (img1 & -> & H1)%list_elem_of_fmap
      (img2 & -> & H2)%list_elem_of_fmap.
    rewrite !Hu. destruct (Hg img1) as (-> & _), (Hg img2) as (-> & _). by apply HC.
  - intros img' (img & -> & Himg)%list_elem_of_fmap.
    destruct (Hg img) as (_ & -> & ->). by apply HD.
Qed.

Lemma update_item_fmap i f (l : list ImageFile) :
  update_item i f l = (fun img => if decide (id img = i) then f img else img) <$> l.
Proof. reflexivity. Qed.

Lemma processOne_url_inv image st : url_inv st -> url_inv (processOne env image st).
Proof.
  intros Hst.
  destruct (processOne_images env image st) as ([Himgs | Himgs] & Hurls & _).
  - eapply (url_inv_fmap (fun img => img)); [exact Hurls | | done | exact Hst].
    by rewrite list_fmap_id.
  - eapply url_inv_fmap; [exact Hurls | by rewrite Himgs, update_item_fmap | | exact Hst].
    intros img. cbn. by destruct (decide (id img = id image)).
Qed.

Lemma foldl_processOne_url_inv imgs : forall st,
  url_inv st -> url_inv (foldl (fun st img => processOne env img st) st imgs).
Proof.
  induction imgs as [|img imgs IH]; intros st Hst; [assumption|].
  cbn [foldl]. apply IH, processOne_url_inv, Hst.
Qed.

Lemma newImages_elem files reg img :
  img ∈ (newImages files reg).1 ->
  compressedUrl img = None /\
  exists k, k < length files /\ originalUrl img = length (created reg) + k /\
            files !! k = Some (id img, original img).
Proof.
  destruct (newImages_spec files reg) as (-> & _).
  intros (k & [rnd file] & -> & Hk)%elem_of_lookup_imap. cbn.
  split; [reflexivity|]. exists k. split_and!; [|reflexivity | exact Hk].
  by eapply lookup_lt_Some.
Qed.

Lemma handleFiles_url_inv files st :
  url_inv st -> url_inv (handleFiles env (Some files) st).
Proof.
  intros (HA & HC & HD & HE1 & HE2). unfold handleFiles.
  pose proof (newImages_elem files (urls st)) as Hnew.
  destruct (newImages_spec files (urls st)) as (_ & Hcreated & Hrevoked).
  destruct (newImages files (urls st)) as [imgs reg]. cbn [fst snd] in *.
  apply foldl_processOne_url_inv.
  assert (Hlen : length (created reg) = length (created (urls st)) + length files)
    by (by rewrite Hcreated, length_app, length_seq).
  unfold url_inv. cbn [images urls setImages set_urls]. rewrite Hrevoked, Hlen.
  assert (Hold : forall img u, img ∈ images st -> u ∈ urls_of img ->
            u < length (created (urls st))) by (intros; by eapply HA).
  assert (Hfresh : forall img u, img ∈ imgs -> u ∈ urls_of img ->
            exists k, k < length files /\ u = length (created (urls st)) + k /\
                      files !! k = Some (id img, original img)).
  { intros img u (Hc & k & Hk & Ho & Hf)%Hnew [->|Hcu]%elem_of_urls_of; [|congruence].
    by exists k. }
  split_and!; [| | | exact HE1 | intros u Hu%HE2; lia].
  - intros img u [Himg|Himg]%elem_of_app Hu.
    + destruct (HA img u Himg Hu). split; [lia|done].
    + destruct (Hfresh img u Himg Hu) as (k & Hk & -> & _).
      split; [lia|]. intros Hr%HE2. lia.
  - intros img1 img2 u [H1|H1]%elem_of_app [H2|H2]%elem_of_app Hne Hu1 Hu2.
    + by apply (HC img1 img2 u).
    + apply (Hold img1 u H1) in Hu1.
      destruct (Hfresh img2 u H2 Hu2) as (k & _ & -> & _). lia.
    + apply (Hold img2 u H2) in Hu2.
      destruct (Hfresh img1 u H1 Hu1) as (k & _ & -> & _). lia.
    + destruct (Hfresh img1 u H1 Hu1) as (k1 & _ & -> & Hf1).
      destruct (Hfresh img2 _ H2 Hu2) as (k2 & _ & Heq & Hf2).
      assert (k1 = k2) as <- by lia. congruence.
  - intros img [Himg|Himg]%elem_of_app; [by apply HD|].
    destruct (Hnew img Himg) as (-> & _). discriminate.
Qed.

Lemma resume_url_inv st k i settled :
  url_inv st ->
  url_inv (processOne_resume env i settled (set_awaiting k st)).
Proof.
  intros Hst. rewrite processOne_resume_unfold. destruct settled as [blob|message].
  - destruct Hst as (HA & HC & HD & HE1 & HE2).
    set (u0 := length (created (urls st))).
    assert (Hin : forall img' u,
              img' ∈ update_item i (mark_done blob u0) (images st) ->
              u ∈ urls_of img' ->
              exists img, img ∈ images st /\ id img' = id img /\
                originalUrl img' = originalUrl img /\
                (u = u0 /\ id img = i /\ compressedUrl img' = Some u0 \/
                 u ∈ urls_of img /\ compressedUrl img' = compressedUrl img \/
                 u = originalUrl img /\ id img = i /\ compressedUrl img' = Some u0)).
    { intros img' u (img & Himg & ->)%elem_of_update_item Hu. exists img.
      destruct (decide (id img = i)) as [Hi|Hi]; [|by auto 10].
      apply elem_of_urls_of in Hu as [->|Hu]; cbn in *; [by auto 10|].
      injection Hu as <-. by auto 10. }
    assert (Hold : forall img u, img ∈ images st -> u ∈ urls_of img -> u < u0)
      by (intros; by eapply HA).
    unfold url_inv.
    cbn [images urls set_awaiting createObjectURL snd created revoked]. fold u0.
    rewrite length_app. cbn [length]. split_and!; [| | | exact HE1 | intros u Hu%HE2; lia].
    + intros img' u Himg' Hu.
      destruct (Hin img' u Himg' Hu) as (img & Himg & _ & _ & [(-> & _)|[(Hu' & _)|(-> & _)]]).
      * split; [lia|]. intros Hr%HE2. lia.
      * destruct (HA img u Himg Hu'). split; [lia|done].
      * destruct (HA img (originalUrl img) Himg) as [? ?]; [apply elem_of_urls_of; by left|].
        split; [lia|done].
    + intros img1' img2' u H1 H2 Hne Hu1 Hu2.
      destruct (Hin img1' u H1 Hu1) as (img1 & Hi1 & Hid1 & _ & Hc1).
      destruct (Hin img2' u H2 Hu2) as (img2 & Hi2 & Hid2 & _ & Hc2).
      rewrite Hid1, Hid2 in Hne.
      assert (Ho1 : originalUrl img1 ∈ urls_of img1) by (apply elem_of_urls_of; by left).
      assert (Ho2 : originalUrl img2 ∈ urls_of img2) by (apply elem_of_urls_of; by left).
      destruct Hc1 as [(-> & Hd1 & _)|[(Hu1' & _)|(-> & Hd1 & _)]];
        destruct Hc2 as [(Heq & Hd2 & _)|[(Hu2' & _)|(Heq & Hd2 & _)]];
        try congruence.
      * apply (Hold img2 _ Hi2) in Hu2'. lia.
      * apply (Hold img1 _ Hi1) in Hu1'. lia.
      * by apply (HC img1 img2 u).
      * apply (HC img1 img2 u Hi1 Hi2 Hne Hu1'). by rewrite Heq.
      * by apply (HC img1 img2 (originalUrl img1) Hi1 Hi2 Hne Ho1).
    + intros img' (img & Himg & ->)%elem_of_update_item.
      destruct (decide (id img = i)); [|by apply HD]. cbn. intros [= Heq].
      assert (originalUrl img < u0); [|lia].
      apply (Hold img); [done|]. apply elem_of_urls_of. by left.
  - eapply (url_inv_fmap _ st); [reflexivity | apply update_item_fmap | | exact Hst].
    intros img. cbn. by destruct (decide (id img = i)).
Qed.

Lemma removeImage_url_inv i st : url_inv st -> url_inv (removeImage i st).
Proof.
  intros (HA & HC & HD & HE1 & HE2).
  assert (Hsub : forall img, img ∈ filter (fun img => id img ≠ i) (images st) ->
            img ∈ images st /\ id img <> i)
    by (intros img [? ?]%list_elem_of_filter; done).
  unfold removeImage.
  destruct (find _ (images st)) as [r|] eqn:Hfind.
  - apply find_some in Hfind as [Hr%list_elem_of_In Hid%bool_decide_eq_true_1].
    assert (Hrev : (let reg := revokeObjectURL (originalUrl r) (urls st) in
                    match compressedUrl r with
                    | Some url => revokeObjectURL url reg
                    | None => reg
                    end) = {| created := created (urls st);
                              revoked := revoked (urls st) ++ urls_of r |}).
    { unfold urls_of, revokeObjectURL. destruct (compressedUrl r); cbn;
        by rewrite <- ?app_assoc. }
    cbv zeta in Hrev. rewrite Hrev. unfold url_inv.
    cbn [images urls setImages set_urls created revoked]. split_and!.
    + intros img u [Himg Hne]%Hsub Hu. destruct (HA img u Himg Hu) as [Hlt Hnr].
      split; [exact Hlt|]. intros [?|Hur]%elem_of_app; [done|].
      apply (HC r img u Hr Himg); [congruence | done | done].
    + intros img1 img2 u [H1 _]%Hsub [H2 _]%Hsub. by apply HC.
    + intros img [Himg _]%Hsub. by apply HD.
    + apply NoDup_app. split_and!; [exact HE1 | |].
      * intros u Hu Hur. by destruct (HA r u Hr Hur).
      * unfold urls_of. specialize (HD r Hr).
        destruct (compressedUrl r) as [c|]; cbn; [|apply NoDup_singleton].
        apply NoDup_cons. split; [|apply NoDup_singleton].
        intros Heq%list_elem_of_singleton. congruence.
    + intros u [Hu|Hu]%elem_of_app; [by apply HE2|]. by destruct (HA r u Hr Hu).
  - unfold url_inv. cbn [images urls setImages set_urls]. split_and!; [| | |exact HE1|exact HE2].
    + intros img u [Himg _]%Hsub. by apply HA.
    + intros img1 img2 u [H1 _]%Hsub [H2 _]%Hsub. by apply HC.
    + intros img [Himg _]%Hsub. by apply HD.
Qed.

Lemma step_url_inv ev st : url_inv st -> url_inv (step env ev st).
Proof.
  intros Hst. destruct ev as [[files|]|i|image|k|k]; cbn [step].
  - by apply handleFiles_url_inv.
  - exact Hst.
  - by apply removeImage_url_inv.
  - by apply processOne_url_inv.
  - destruct (awaiting st !! k) as [[i settled]|]; [|exact Hst].
    by apply resume_url_inv.
  - destruct (analyses st !! k) as [[i text]|]; [|exact Hst].
    eapply (url_inv_fmap _ st); [reflexivity | apply update_item_fmap | | exact Hst].
    intros img. cbn. by destruct (decide (id img = i)).
Qed.

Lemma run_url_inv evs : forall st, url_inv st -> url_inv (run env evs st).
Proof.
  induction evs as [|ev evs IH]; intros st Hst; [assumption|].
  apply IH, step_url_inv, Hst.
Qed.

Lemma init_url_inv : url_inv init.
Proof.
  unfold url_inv. cbn. split_and!; try (intros; exfalso; by eapply elem_of_nil).
  constructor.
Qed.

(** X13. In every state the component can reach, by whatever events: the
    URL shown as the image source of any item, and the URL of its download
    link, have been created and are not revoked; no URL is ever revoked
    twice; and only created URLs are revoked. *)
Theorem displayed_urls_live (evs : list Event) (img : ImageFile) :
  let st := run env evs init in
  img ∈ images st ->
  (img_src img < length (created (urls st)) /\ (img_src img ∉ revoked (urls st))) /\
  (forall href, footer img = DownloadLink href ->
     href < length (created (urls st)) /\ (href ∉ revoked (urls st))) /\
  NoDup (revoked (urls st)) /\
  (forall u, u ∈ revoked (urls st) -> u < length (created (urls st))).
Proof.
  intros st Himg.
  destruct (run_url_inv evs init init_url_inv) as (HA & _ & _ & HE1 & HE2).
  fold st in HA, HE1, HE2.
  split; [|split; [|split; [exact HE1 | exact HE2]]].
  - apply (HA img); [exact Himg|]. apply elem_of_urls_of. unfold img_src.
    destruct (compressedUrl img); cbn; auto.
  - intros href Hfooter. apply (HA img); [exact Himg|]. apply elem_of_urls_of.
    right. unfold footer in Hfooter.
    destruct (status img), (compressedUrl img); congruence.
Qed.

End LiveUrls.

Section LiveUrlsScenario.
Import types App.

Lemma displayed_urls_live_witness :
  (done_a ∈ images (run demo_platform [drop_a; CompressionSettles 0] init)) /\
  footer done_a = DownloadLink 1 /\
  (1 ∉ revoked (urls (run demo_platform [drop_a; CompressionSettles 0] init))).
Proof.
  assert (Hin : done_a ∈ images (run demo_platform [drop_a; CompressionSettles 0] init))
    by (vm_compute; apply list_elem_of_here).
  split; [exact Hin|]. split; [reflexivity|].
  destruct (displayed_urls_live demo_platform _ done_a Hin) as (_ & Hlink & _).
  exact (proj2 (Hlink 1 eq_refl)).
Defined.

End LiveUrlsScenario.

Section Cards.
Import types App.
Context (env : Platform).

Lemma link_ok_not_done img :
  link_ok img -> status img <> Done -> compressedUrl img = None.
Proof. unfold link_ok. destruct (status img); congruence. Qed.

Lemma processOne_link image st :
  Forall link_ok (images st) -> not_done_for (id image) st ->
  Forall link_ok (images (processOne env image st)).
Proof.
  intros Hok Hnd.
  destruct (processOne_images env image st) as ([-> | ->] & _); [exact Hok|].
  apply Forall_update_item; [exact Hok|]. intros img Himg Hid.
  rewrite Forall_forall in Hok.
  exact (link_ok_not_done img (Hok img Himg) (Hnd img Himg Hid)).
Qed.

Lemma foldl_processOne_link imgs : forall st,
  Forall link_ok (images st) ->
  (forall im, im ∈ imgs -> not_done_for (id im) st) ->
  Forall link_ok (images (foldl (fun st img => processOne env img st) st imgs)).
Proof.
  induction imgs as [|img imgs IH]; intros st Hst Hnd; [assumption|].
  cbn [foldl]. apply IH.
  - apply processOne_link; [exact Hst|]. apply Hnd. by left.
  - intros im Him. apply processOne_not_done, Hnd. by right.
Qed.

Lemma step_link ev st :
  admissible ev st -> inv st ->
  Forall link_ok (images st) -> Forall link_ok (images (step env ev st)).
Proof.
  intros Hadm (Hguard & _ & Hnd & _) Hok.
  destruct ev as [[files|]|i|image|k|k]; cbn [step].
  - unfold handleFiles.
    pose proof (newImages_ids files (urls st)) as Hids.
    pose proof (newImages_pending files (urls st)) as Hpending.
    pose proof (newImages_elem files (urls st)) as Hnew.
    destruct (newImages files (urls st)) as [imgs reg]. cbn [fst] in *.
    rewrite Forall_forall in Hpending.
    apply foldl_processOne_link; cbn [images setImages set_urls].
    + apply Forall_app. split; [exact Hok|]. apply Forall_forall. intros im Him.
      unfold link_ok. destruct (Hpending im Him) as [-> _]. by apply Hnew.
    + intros im Him img [Himg|Himg]%elem_of_app.
      * intros Hid. exfalso. cbn in Hadm. rewrite Forall_forall in Hadm.
        apply (Hadm (id im)).
        -- rewrite <- Hids. by apply list_elem_of_fmap_2.
        -- rewrite <- Hid. by apply list_elem_of_fmap_2.
      * intros _. destruct (Hpending img Himg) as [-> _]. discriminate.
  - exact Hok.
  - cbn [removeImage images setImages]. apply Forall_forall.
    intros img [_ Himg]%list_elem_of_filter. rewrite Forall_forall in Hok. by apply Hok.
  - destruct Hadm.
  - destruct (awaiting st !! k) as [[i settled]|] eqn:Hk; [|exact Hok].
    rewrite processOne_resume_unfold.
    destruct settled as [blob|message]; cbn [images set_awaiting];
      (apply Forall_update_item; [exact Hok|]); intros img Himg Hid.
    + by eexists.
    + rewrite Forall_forall in Hok. apply (link_ok_not_done img (Hok img Himg)).
      apply (Hnd i); [|done|done].
      apply list_elem_of_fmap. exists (i, Rejected message). split; [done|].
      by eapply list_elem_of_lookup_2.
  - destruct (analyses st !! k) as [[i text]|]; [|exact Hok].
    cbn [images analysis_then setImages set_analyses].
    apply Forall_update_item; [exact Hok|]. intros img Himg _.
    rewrite Forall_forall in Hok. exact (Hok img Himg).
Qed.

Lemma run_link evs : forall st,
  well_formed env evs st -> inv st ->
  Forall link_ok (images st) -> Forall link_ok (images (run env evs st)).
Proof.
  induction evs as [|ev evs IH]; intros st Hwf Hinv Hok; [assumption|].
  destruct Hwf as [Hadm Hwf].
  apply IH; [exact Hwf | by apply step_inv | by apply step_link].
Qed.

(** X14. What a card shows, in every state the component reaches by its own
    events: the download link exactly for a [Done] item, pointing at the
    compressed blob's URL, which is then also the image source; the error
    box exactly for an [Error] item and the waiting box otherwise, both with
    the original file's URL as the image source. *)
Theorem card_follows_status (evs : list Event) (img : ImageFile) :
  well_formed env evs init ->
  img ∈ images (run env evs init) ->
  footer img =
    match status img with
    | Done => DownloadLink (img_src img)
    | Error => ErrorBox
    | _ => WaitingBox
    end /\
  (status img = Done -> compressedUrl img = Some (img_src img)) /\
  (status img <> Done -> img_src img = originalUrl img).
Proof.
  intros Hwf Himg.
  assert (Hok : Forall link_ok (images (run env evs init)))
    by (apply run_link; [exact Hwf | apply init_inv | constructor]).
  rewrite Forall_forall in Hok. specialize (Hok img Himg).
  unfold link_ok, footer, img_src in *.
  destruct (status img); try (rewrite Hok; by split_and!).
  destruct Hok as [url ->]. by split_and!.
Qed.

End Cards.

Section CardsScenario.
Import types App.

Lemma card_follows_status_witness :
  well_formed demo_platform [drop_a; CompressionSettles 0] init /\
  (done_a ∈ images (run demo_platform [drop_a; CompressionSettles 0] init)) /\
  footer done_a = DownloadLink 1.
Proof.
  assert (Hwf : well_formed demo_platform [drop_a; CompressionSettles 0] init).
  { split; [|done]. cbn. constructor; [|constructor].
    unfold free. cbn. apply not_elem_of_nil. }
  assert (Hin : done_a ∈ images (run demo_platform [drop_a; CompressionSettles 0] init))
    by (vm_compute; apply list_elem_of_here).
  split; [exact Hwf|]. split; [exact Hin|].
  exact (proj1 (card_follows_status demo_platform _ done_a Hwf Hin)).
Defined.

End CardsScenario.

Section Terminal.
Import types App.
Context (env : Platform).

Lemma elem_of_update_item_other i f l img :
  img ∈ l -> id img <> i -> img ∈ update_item i f l.
Proof.
  intros Himg Hne. apply elem_of_update_item. exists img.
  split; [exact Himg|]. by rewrite decide_False.
Qed.

Lemma processOne_not_error j image st :
  not_error_for j st -> not_error_for j (processOne env image st).
Proof.
  intros Hne img'.
  destruct (processOne_images env image st) as ([-> | ->] & _); [apply Hne|].
  intros (img & Himg & ->)%elem_of_update_item.
  destruct (decide (id img = id image)); [done | by apply Hne].
Qed.

Lemma foldl_processOne_awaiting_live imgs : forall st,
  (forall i, i ∈ (awaiting st).*1 -> not_error_for i st) ->
  forall i, i ∈ (awaiting (foldl (fun st img => processOne env img st) st imgs)).*1 ->
    not_error_for i (foldl (fun st img => processOne env img st) st imgs).
Proof.
  induction imgs as [|im imgs IH]; intros st Hst; [exact Hst|].
  cbn [foldl]. apply IH. intros i Hi.
  destruct (decide (id im ∈ processingQueue st)) as [Hin|Hnotin].
  - rewrite processOne_guarded in Hi |- * by assumption. by apply Hst.
  - destruct (processOne_started env im st Hnotin) as (settled & _ & Hone).
    rewrite Hone in Hi. cbn [awaiting] in Hi.
    rewrite fmap_app, elem_of_app in Hi. destruct Hi as [Hi|Hi].
    + by apply processOne_not_error, Hst.
    + apply list_elem_of_singleton in Hi. cbn in Hi. subst i.
      rewrite Hone. intros img'. cbn [images].
      intros (img & _ & ->)%elem_of_update_item Hid.
      by destruct (decide (id img = id im)).
Qed.

(** No run in flight belongs to an item in [Error], in any reachable state. *)
Lemma step_awaiting_live ev st :
  guard_inv st ->
  (forall i, i ∈ (awaiting st).*1 -> not_error_for i st) ->
  forall i, i ∈ (awaiting (step env ev st)).*1 -> not_error_for i (step env ev st).
Proof.
  intros [Hnodup _] Hst. destruct ev as [[files|]|j|image|k|k]; cbn [step].
  - unfold handleFiles.
    pose proof (newImages_pending files (urls st)) as Hpending.
    destruct (newImages files (urls st)) as [imgs reg]. cbn [fst] in *.
    rewrite Forall_forall in Hpending.
    apply foldl_processOne_awaiting_live. cbn [awaiting images setImages set_urls].
    intros i Hi img [Himg|Himg]%elem_of_app; [by apply (Hst i Hi)|].
    intros _. destruct (Hpending img Himg) as [-> _]. discriminate.
  - exact Hst.
  - intros i Hi img [_ Himg]%list_elem_of_filter. by apply (Hst i Hi).
  - apply (foldl_processOne_awaiting_live [image] st Hst).
  - destruct (awaiting st !! k) as [[j settled]|] eqn:Hk; [|exact Hst].
    destruct (delete_middle _ _ _ Hk) as (l1 & l2 & Hl & Hdel).
    rewrite processOne_resume_unfold.
    assert (Hrest : forall i, i ∈ (delete k (awaiting st)).*1 ->
              j <> i /\ i ∈ (awaiting st).*1).
    { intros i. rewrite Hdel, Hl. rewrite Hl, fmap_app, fmap_cons in Hnodup.
      rewrite !fmap_app, fmap_cons, !elem_of_app, elem_of_cons. cbn [fst] in *.
      apply NoDup_app in Hnodup as (_ & Hdisj & [Hi2 _]%NoDup_cons).
      intros [Hi|Hi]; (split; [|tauto]); intros ->.
      - apply (Hdisj i Hi). by left.
      - contradiction. }
    destruct settled as [blob|message]; cbn [awaiting images set_awaiting];
      intros i [Hne Hi]%Hrest img' (img & Himg & ->)%elem_of_update_item Hid;
      (destruct (decide (id img = j)); [cbn in Hid; congruence|]);
      by apply (Hst i Hi img).
  - destruct (analyses st !! k) as [[j text]|]; [|exact Hst].
    cbn [awaiting images analysis_then setImages set_analyses].
    intros i Hi img' (img & Himg & ->)%elem_of_update_item Hid.
    destruct (decide (id img = j)); by apply (Hst i Hi img).
Qed.

Lemma run_awaiting_live evs : forall st,
  guard_inv st ->
  (forall i, i ∈ (awaiting st).*1 -> not_error_for i st) ->
  forall i, i ∈ (awaiting (run env evs st)).*1 -> not_error_for i (run env evs st).
Proof.
  induction evs as [|ev evs IH]; intros st Hguard Hst; [exact Hst|].
  apply IH; [by apply step_guard_inv | by apply step_awaiting_live].
Qed.

Lemma foldl_processOne_keeps_other imgs img : forall st,
  img ∈ images st -> id img ∉ id <$> imgs ->
  img ∈ images (foldl (fun st img => processOne env img st) st imgs).
Proof.
  induction imgs as [|im imgs IH]; intros st Himg Hid; [exact Himg|].
  cbn [fmap list_fmap] in Hid. apply not_elem_of_cons in Hid as [Hne Hid].
  cbn [foldl]. apply IH; [|exact Hid].
  destruct (processOne_images env im st) as ([-> | ->] & _); [exact Himg|].
  by apply elem_of_update_item_other.
Qed.

(** X15. [Done] and [Error] are final.  In every state the component reaches
    by its own events, an item that is [Done] or [Error] survives every
    further event other than its own removal, with its status, compressed
    blob, compressed URL, sizes and error message unchanged: only its
    [aiAnalysis] may still be filled in. *)
Theorem finished_items_are_final
    (evs : list Event) (ev : Event) (img : ImageFile) :
  well_formed env evs init ->
  admissible ev (run env evs init) ->
  img ∈ images (run env evs init) ->
  status img = Done \/ status img = Error ->
  ev <> RemoveImage (id img) ->
  exists img',
    img' ∈ images (step env ev (run env evs init)) /\ same_but_analysis img img'.
Proof.
  intros Hwf Hadm Himg Hfinal Hkeep.
  pose proof (run_inv env evs init Hwf init_inv) as (Hguard & _ & Hnd & _).
  assert (Hne : forall i, i ∈ (awaiting (run env evs init)).*1 ->
            not_error_for i (run env evs init)).
  { apply run_awaiting_live; [apply init_guard_inv|].
    intros i Hi. cbn in Hi. by apply elem_of_nil in Hi. }
  set (st := run env evs init) in *.
  assert (Hsame : same_but_analysis img img) by (by unfold same_but_analysis).
  destruct ev as [[files|]|j|image|k|k]; cbn [step].
  - exists img. split; [|exact Hsame]. unfold handleFiles.
    pose proof (newImages_ids files (urls st)) as Hids.
    destruct (newImages files (urls st)) as [imgs reg]. cbn [fst] in Hids.
    apply foldl_processOne_keeps_other.
    + cbn [images setImages set_urls]. apply elem_of_app. by left.
    + rewrite Hids. cbn in Hadm. rewrite Forall_forall in Hadm.
      intros Hin. apply (Hadm _ Hin). by apply list_elem_of_fmap_2.
  - by exists img.
  - exists img. split; [|exact Hsame]. cbn [removeImage images setImages].
    apply list_elem_of_filter. split; [congruence | exact Himg].
  - destruct Hadm.
  - destruct (awaiting st !! k) as [[i settled]|] eqn:Hk; [|by exists img].
    assert (Hi : i ∈ (awaiting st).*1).
    { apply list_elem_of_fmap. exists (i, settled). split; [done|].
      by eapply list_elem_of_lookup_2. }
    assert (Hother : id img <> i).
    { intros Hid. destruct Hfinal as [Hd|He].
      - by apply (Hnd i Hi img).
      - by apply (Hne i Hi img). }
    exists img. split; [|exact Hsame]. rewrite processOne_resume_unfold.
    destruct settled; cbn [images set_awaiting]; by apply elem_of_update_item_other.
  - destruct (analyses st !! k) as [[i text]|]; [|by exists img].
    cbn [images analysis_then setImages set_analyses].
    exists (if decide (id img = i) then mark_analysis text img else img). split.
    + apply elem_of_update_item. by exists img.
    + by destruct (decide (id img = i)).
Qed.

End Terminal.

Section TerminalScenario.
Import types App.

Lemma finished_items_are_final_witness :
  well_formed demo_platform [drop_a; CompressionSettles 0] init /\
  (done_a ∈ images (run demo_platform [drop_a; CompressionSettles 0] init)) /\
  exists img',
    img' ∈ images (run demo_platform
                     [drop_a; CompressionSettles 0; AnalysisSettles 0] init) /\
    same_but_analysis done_a img'.
Proof.
  assert (Hwf : well_formed demo_platform [drop_a; CompressionSettles 0] init).
  { split; [|done]. cbn. constructor; [|constructor].
    unfold free. cbn. apply not_elem_of_nil. }
  assert (Hin : done_a ∈ images (run demo_platform [drop_a; CompressionSettles 0] init))
    by (vm_compute; apply list_elem_of_here).
  split; [exact Hwf|]. split; [exact Hin|].
  exact (finished_items_are_final demo_platform [drop_a; CompressionSettles 0]
           (AnalysisSettles 0) done_a Hwf I Hin (or_introl eq_refl)
           ltac:(discriminate)).
Defined.

End TerminalScenario.

Section Commentary.
Import types App.
Context (env : Platform).

Lemma analyzeImage_nonempty blob : geminiService.analyzeImage env blob <> "".
Proof.
  unfold geminiService.analyzeImage.
  destruct (generateContent env blob) as [[text|]|]; try done.
  by destruct (decide (text = "")).
Qed.

Lemma processOne_texts image st :
  texts_ok st -> texts_ok (processOne env image st).
Proof.
  intros [Han Himgs].
  destruct (processOne_images env image st) as (Hi & _ & Ha).
  split; [by rewrite Ha|]. destruct Hi as [-> | ->]; [exact Himgs|].
  intros img' text (img & Himg & ->)%elem_of_update_item.
  destruct (decide (id img = id image)); by apply (Himgs img).
Qed.

Lemma foldl_processOne_texts imgs : forall st,
  texts_ok st -> texts_ok (foldl (fun st img => processOne env img st) st imgs).
Proof.
  induction imgs as [|img imgs IH]; intros st Hst; [assumption|].
  cbn [foldl]. apply IH, processOne_texts, Hst.
Qed.

Lemma step_texts ev st : texts_ok st -> texts_ok (step env ev st).
Proof.
  intros Hst. pose proof Hst as [Han Himgs].
  destruct ev as [[files|]|i|image|k|k]; cbn [step].
  - unfold handleFiles.
    pose proof (newImages_spec files (urls st)) as (Hnew & _).
    destruct (newImages files (urls st)) as [imgs reg]. cbn [fst] in Hnew.
    apply foldl_processOne_texts. split; cbn [analyses images setImages set_urls];
      [exact Han|].
    intros img text [Himg|Himg]%elem_of_app; [by apply Himgs|].
    rewrite Hnew in Himg. by apply elem_of_lookup_imap in Himg as (n & p & -> & _).
  - exact Hst.
  - split; [exact Han|]. cbn [removeImage images setImages].
    intros img text [_ Himg]%list_elem_of_filter. by apply Himgs.
  - by apply processOne_texts.
  - destruct (awaiting st !! k) as [[i settled]|]; [|exact Hst].
    rewrite processOne_resume_unfold.
    destruct settled as [blob|message]; split; cbn [analyses images set_awaiting];
      try exact Han.
    + intros j text [Hin|[= _ ->]%list_elem_of_singleton]%elem_of_app;
        [by eapply Han | apply analyzeImage_nonempty].
    + intros img' text (img & Himg & ->)%elem_of_update_item.
      destruct (decide (id img = i)); by apply (Himgs img).
    + intros img' text (img & Himg & ->)%elem_of_update_item.
      destruct (decide (id img = i)); by apply (Himgs img).
  - destruct (analyses st !! k) as [[i text]|] eqn:Hk; [|exact Hst].
    assert (Htext : text <> "").
    { apply (Han i). by eapply list_elem_of_lookup_2. }
    split; cbn [analyses images analysis_then setImages set_analyses].
    + intros j t Hin. apply (Han j).
      destruct (delete_middle _ _ _ Hk) as (l1 & l2 & Hl & Hdel).
      rewrite Hdel in Hin. rewrite Hl, elem_of_app, elem_of_cons.
      apply elem_of_app in Hin. tauto.
    + intros img' t (img & Himg & ->)%elem_of_update_item.
      destruct (decide (id img = i)); [|by apply (Himgs img)]. cbn. by intros [= <-].
Qed.

Lemma run_texts evs : forall st, texts_ok st -> texts_ok (run env evs st).
Proof.
  induction evs as [|ev evs IH]; intros st Hst; [assumption|].
  apply IH, step_texts, Hst.
Qed.

(** X16. In every state the component can reach, an item's [aiAnalysis] is
    either unset or a non-empty text, so the commentary box is rendered
    exactly when [aiAnalysis] is set and shows exactly that text. *)
Theorem commentary_shown_when_set (evs : list Event) (img : ImageFile) :
  img ∈ images (run env evs init) ->
  ai_box img = aiAnalysis img /\
  (forall text, aiAnalysis img = Some text -> text <> "").
Proof.
  intros Himg.
  assert (Hok : texts_ok (run env evs init)).
  { apply run_texts. split; cbn; intros ? ? Hin; by apply elem_of_nil in Hin. }
  destruct Hok as [_ Himgs].
  assert (Htexts : forall text, aiAnalysis img = Some text -> text <> "")
    by (intros text; by apply Himgs).
  split; [|exact Htexts]. unfold ai_box.
  destruct (aiAnalysis img) as [text|]; [|reflexivity].
  rewrite decide_False; [reflexivity|]. by apply Htexts.
Qed.

Lemma processOne_spinning image st :
  spinning_ok st -> spinning_ok (processOne env image st).
Proof.
  intros Hst img'.
  destruct (decide (id image ∈ processingQueue st)) as [Hin|Hnotin].
  - rewrite processOne_guarded by assumption. apply Hst.
  - destruct (processOne_started env image st Hnotin) as (settled & _ & ->).
    cbn [images awaiting]. rewrite fmap_app, elem_of_app.
    intros (img & Himg & ->)%elem_of_update_item Hstatus.
    destruct (decide (id img = id image)) as [Heq|Hne].
    + right. cbn. rewrite Heq. apply list_elem_of_here.
    + left. by apply Hst.
Qed.

Lemma foldl_processOne_spinning imgs : forall st,
  spinning_ok st -> spinning_ok (foldl (fun st img => processOne env img st) st imgs).
Proof.
  induction imgs as [|img imgs IH]; intros st Hst; [assumption|].
  cbn [foldl]. apply IH, processOne_spinning, Hst.
Qed.

Lemma step_spinning ev st : spinning_ok st -> spinning_ok (step env ev st).
Proof.
  intros Hst. destruct ev as [[files|]|i|image|k|k]; cbn [step].
  - unfold handleFiles.
    pose proof (newImages_pending files (urls st)) as Hpending.
    destruct (newImages files (urls st)) as [imgs reg]. cbn [fst] in Hpending.
    rewrite Forall_forall in Hpending.
    apply foldl_processOne_spinning. intros img.
    cbn [images awaiting setImages set_urls].
    intros [Himg|Himg]%elem_of_app; [by apply Hst|].
    destruct (Hpending img Himg) as [-> _]. discriminate.
  - exact Hst.
  - intros img. cbn [removeImage images awaiting setImages set_urls].
    intros [_ Himg]%list_elem_of_filter. by apply Hst.
  - by apply processOne_spinning.
  - destruct (awaiting st !! k) as [[i settled]|] eqn:Hk; [|exact Hst].
    destruct (delete_middle _ _ _ Hk) as (l1 & l2 & Hl & Hdel).
    rewrite processOne_resume_unfold.
    assert (Hkeep : forall img, img ∈ images st -> status img = Compressing ->
              id img <> i -> id img ∈ (delete k (awaiting st)).*1).
    { intros img Himg Hstatus Hne. specialize (Hst img Himg Hstatus).
      rewrite Hdel. rewrite Hl, fmap_app, fmap_cons, elem_of_app, elem_of_cons in Hst.
      rewrite fmap_app, elem_of_app. cbn [fst] in Hst. tauto. }
    destruct settled as [blob|message]; intros img';
      cbn [images awaiting set_awaiting];
      intros (img & Himg & ->)%elem_of_update_item;
      (destruct (decide (id img = i)) as [Heq|Hne]; [discriminate|]);
      intros Hstatus; by apply Hkeep.
  - destruct (analyses st !! k) as [[i text]|]; [|exact Hst].
    intros img'. cbn [images awaiting analysis_then setImages set_analyses].
    intros (img & Himg & ->)%elem_of_update_item.
    destruct (decide (id img = i)); by apply (Hst img).
Qed.

Lemma run_spinning evs : forall st, spinning_ok st -> spinning_ok (run env evs st).
Proof.
  induction evs as [|ev evs IH]; intros st Hst; [assumption|].
  apply IH, step_spinning, Hst.
Qed.

(** X17. No item is stuck in [Compressing]: in every state the component can
    reach, a [Compressing] item has a run in flight for its id, and when that
    run settles every item carrying the id is [Done] or [Error]. *)
Theorem compressing_has_run (evs : list Event) (img : ImageFile) :
  img ∈ images (run env evs init) ->
  status img = Compressing ->
  exists k settled,
    awaiting (run env evs init) !! k = Some (id img, settled) /\
    forall img', img' ∈ images (step env (CompressionSettles k) (run env evs init)) ->
      id img' = id img -> status img' = Done \/ status img' = Error.
Proof.
  intros Himg Hstatus.
  assert (Hrun : spinning_ok (run env evs init)).
  { apply run_spinning. intros x Hx. by apply elem_of_nil in Hx. }
  specialize (Hrun img Himg Hstatus).
  apply list_elem_of_fmap in Hrun as ([i settled] & Hid & Hin). cbn in Hid. subst i.
  apply list_elem_of_lookup in Hin as [k Hk].
  exists k, settled. split; [exact Hk|].
  intros img'. cbn [step]. rewrite Hk, processOne_resume_unfold.
  destruct settled as [blob|message]; cbn [images set_awaiting];
    intros (x0 & Hx0 & ->)%elem_of_update_item Hid;
    destruct (decide (id x0 = id img)); cbn; auto; congruence.
Qed.

End Commentary.

Section CommentaryScenario.
Import types App.

Lemma commentary_shown_when_set_witness :
  (mark_analysis analysis_fallback done_a
     ∈ images (run demo_platform
                 [drop_a; CompressionSettles 0; AnalysisSettles 0] init)) /\
  ai_box (mark_analysis analysis_fallback done_a) = Some analysis_fallback.
Proof.
  assert (Hin : mark_analysis analysis_fallback done_a
                  ∈ images (run demo_platform
                              [drop_a; CompressionSettles 0; AnalysisSettles 0] init))
    by (vm_compute; apply list_elem_of_here).
  split; [exact Hin|].
  exact (proj1 (commentary_shown_when_set demo_platform _ _ Hin)).
Defined.

Lemma compressing_has_run_witness :
  (mark_compressing image_a ∈ images (run demo_platform [drop_a] init)) /\
  status (mark_compressing image_a) = Compressing /\
  exists k settled,
    awaiting (run demo_platform [drop_a] init) !! k = Some ("a", settled).
Proof.
  assert (Hin : mark_compressing image_a ∈ images (run demo_platform [drop_a] init))
    by (vm_compute; apply list_elem_of_here).
  split; [exact Hin|]. split; [reflexivity|].
  destruct (compressing_has_run demo_platform [drop_a] _ Hin eq_refl)
    as (k & settled & Hk & _).
  by exists k, settled.
Defined.

End CommentaryScenario.

Section ErrorMessages.
Import types App.
Context (env : Platform).

Lemma error_ok_not_error img :
  error_ok img -> status img <> Error -> error img = None.
Proof. unfold error_ok. destruct (status img); congruence. Qed.

Lemma processOne_error_ok image st :
  Forall error_ok (images st) -> not_error_for (id image) st ->
  Forall error_ok (images (processOne env image st)).
Proof.
  intros Hok Hne.
  destruct (processOne_images env image st) as ([-> | ->] & _); [exact Hok|].
  apply Forall_update_item; [exact Hok|]. intros img Himg Hid.
  rewrite Forall_forall in Hok.
  exact (error_ok_not_error img (Hok img Himg) (Hne img Himg Hid)).
Qed.

Lemma foldl_processOne_error_ok imgs : forall st,
  Forall error_ok (images st) ->
  (forall im, im ∈ imgs -> not_error_for (id im) st) ->
  Forall error_ok (images (foldl (fun st img => processOne env img st) st imgs)).
Proof.
  induction imgs as [|img imgs IH]; intros st Hst Hne; [assumption|].
  cbn [foldl]. apply IH.
  - apply processOne_error_ok; [exact Hst|]. apply Hne. by left.
  - intros im Him. apply processOne_not_error, Hne. by right.
Qed.

Lemma step_error_ok ev st :
  admissible ev st -> inv st ->
  (forall i, i ∈ (awaiting st).*1 -> not_error_for i st) ->
  Forall error_ok (images st) -> Forall error_ok (images (step env ev st)).
Proof.
  intros Hadm (_ & _ & _ & Hrej) Hlive Hok.
  destruct ev as [[files|]|i|image|k|k]; cbn [step].
  - unfold handleFiles.
    pose proof (newImages_ids files (urls st)) as Hids.
    pose proof (newImages_pending files (urls st)) as Hpending.
    pose proof (newImages_spec files (urls st)) as (Hnew & _).
    destruct (newImages files (urls st)) as [imgs reg]. cbn [fst] in *.
    rewrite Forall_forall in Hpending.
    apply foldl_processOne_error_ok; cbn [images setImages set_urls].
    + apply Forall_app. split; [exact Hok|]. apply Forall_forall. intros im Him.
      unfold error_ok. destruct (Hpending im Him) as [-> _].
      rewrite Hnew in Him. by apply elem_of_lookup_imap in Him as (n & p & -> & _).
    + intros im Him img [Himg|Himg]%elem_of_app.
      * intros Hid. exfalso. cbn in Hadm. rewrite Forall_forall in Hadm.
        apply (Hadm (id im)).
        -- rewrite <- Hids. by apply list_elem_of_fmap_2.
        -- rewrite <- Hid. by apply list_elem_of_fmap_2.
      * intros _. destruct (Hpending img Himg) as [-> _]. discriminate.
  - exact Hok.
  - cbn [removeImage images setImages]. apply Forall_forall.
    intros img [_ Himg]%list_elem_of_filter. rewrite Forall_forall in Hok. by apply Hok.
  - destruct Hadm.
  - destruct (awaiting st !! k) as [[i settled]|] eqn:Hk; [|exact Hok].
    assert (Hin : (i, settled) ∈ awaiting st) by (by eapply list_elem_of_lookup_2).
    assert (Hi : i ∈ (awaiting st).*1).
    { apply list_elem_of_fmap. by exists (i, settled). }
    rewrite processOne_resume_unfold.
    destruct settled as [blob|message]; cbn [images set_awaiting];
      (apply Forall_update_item; [exact Hok|]); intros img Himg Hid.
    + rewrite Forall_forall in Hok.
      exact (error_ok_not_error img (Hok img Himg) (Hlive i Hi img Himg Hid)).
    + exists message. split; [reflexivity|]. by apply (Hrej i).
  - destruct (analyses st !! k) as [[i text]|]; [|exact Hok].
    cbn [images analysis_then setImages set_analyses].
    apply Forall_update_item; [exact Hok|]. intros img Himg _.
    rewrite Forall_forall in Hok. exact (Hok img Himg).
Qed.

Lemma run_error_ok evs : forall st,
  well_formed env evs st -> inv st ->
  (forall i, i ∈ (awaiting st).*1 -> not_error_for i st) ->
  Forall error_ok (images st) -> Forall error_ok (images (run env evs st)).
Proof.
  induction evs as [|ev evs IH]; intros st Hwf Hinv Hlive Hok; [assumption|].
  destruct Hwf as [Hadm Hwf]. apply IH; [exact Hwf | by apply step_inv | |].
  - apply step_awaiting_live; [apply Hinv | exact Hlive].
  - by apply step_error_ok.
Qed.

(** X18. In every state the component reaches by its own events, an item
    carries an error message if and only if its status is [Error], and the
    message is then one of the four messages of [compressImage]. *)
Theorem error_message_iff_error (evs : list Event) (img : ImageFile) :
  well_formed env evs init ->
  img ∈ images (run env evs init) ->
  (is_Some (error img) <-> status img = Error) /\
  (forall message, error img = Some message -> message ∈ compress_errors).
Proof.
  intros Hwf Himg.
  assert (Hok : Forall error_ok (images (run env evs init))).
  { apply run_error_ok; [exact Hwf | apply init_inv | | constructor].
    intros i Hi. cbn in Hi. by apply elem_of_nil in Hi. }
  rewrite Forall_forall in Hok. specialize (Hok img Himg). unfold error_ok in Hok.
  destruct (status img);
    try (rewrite Hok; split; [split; [by intros [? ?] | done] | done]).
  destruct Hok as (message & -> & Hmsg). split; [by split|].
  by intros ? [= <-].
Qed.

End ErrorMessages.

Section ErrorScenario.
Import types App.

Lemma error_message_iff_error_witness :
  well_formed broken_platform [drop_a; CompressionSettles 0] init /\
  (mark_error "Image load error" (mark_compressing image_a)
     ∈ images (run broken_platform [drop_a; CompressionSettles 0] init)) /\
  "Image load error" ∈ compress_errors.
Proof.
  assert (Hwf : well_formed broken_platform [drop_a; CompressionSettles 0] init).
  { split; [|done]. cbn. constructor; [|constructor].
    unfold free. cbn. apply not_elem_of_nil. }
  assert (Hin : mark_error "Image load error" (mark_compressing image_a)
                  ∈ images (run broken_platform [drop_a; CompressionSettles 0] init))
    by (vm_compute; apply list_elem_of_here).
  split; [exact Hwf|]. split; [exact Hin|].
  exact (proj2 (error_message_iff_error broken_platform _ _ Hwf Hin) _ eq_refl).
Defined.

End ErrorScenario.
